(** * MoltChat agent client: a shallow embedding of [moltchat/client.py]

    The development follows the Python module top to bottom: Python
    strings and the [str] methods the client calls, the [Soul] identity
    with its HMAC-SHA256 signature, the [Message] record, and the
    [AgentClient] with its handler registry, its line parser, its read
    loop and its connect/reconnect logic. *)

From stdpp Require Import gmap strings list.
From Stdlib Require Import NArith Ascii Lia.
From Stdlib Require DecimalString.

Local Open Scope N_scope.

(** ** Python strings

    A Python [str] is a sequence of code points; a code point is kept as
    a number in [N].  [py] turns a literal into such a sequence. *)

Abbreviation str := (list N).

Definition py (s : string) : str :=
  N_of_ascii <$> String.list_ascii_of_string s.

Arguments py : simpl never.

Definition CR : N := 13.
Definition LF : N := 10.
Definition crlf : str := [CR; LF].

Module Str.

(** [a == b] *)
Definition eqb (a b : str) : bool := bool_decide (a = b).

(** [s.startswith(p)] *)
Fixpoint startswith (p s : str) : bool :=
  match p, s with
  | [], _ => true
  | _ :: _, [] => false
  | a :: p', b :: s' => (a =? b) && startswith p' s'
  end.

(** [s.find(sub)], with [None] for Python's [-1]. *)
Fixpoint find (sub s : str) : option nat :=
  if startswith sub s then Some 0%nat
  else match s with
       | [] => None
       | _ :: s' => S <$> find sub s'
       end.

(** [sub in s] *)
Definition contains (sub s : str) : bool :=
  match find sub s with Some _ => true | None => false end.

(** [s.partition(sep)] *)
Definition partition (sep s : str) : str * str * str :=
  match find sep s with
  | Some i => (take i s, sep, drop (i + length sep) s)
  | None => (s, [], [])
  end.

(** [s.split(sep, maxsplit)] for a non-negative [maxsplit]: cut at the
    leftmost separators, at most [maxsplit] times. *)
Fixpoint splitn (sep : str) (maxsplit : nat) (s : str) : list str :=
  match maxsplit with
  | O => [s]
  | S m =>
      match find sep s with
      | Some i => take i s :: splitn sep m (drop (i + length sep) s)
      | None => [s]
      end
  end.

(** [s.split(sep)]: no limit.  A non-empty separator is found at most
    [length s] times, so that many cuts are as good as no limit. *)
Definition split (sep s : str) : list str := splitn sep (length s) s.

(** [c.isspace()] for one code point: the table behind
    [str.strip()] and [str.split()]. *)
Definition isspace (c : N) : bool :=
  ((9 <=? c) && (c <=? 13)) || ((28 <=? c) && (c <=? 32))
  || (c =? 133) || (c =? 160) || (c =? 5760)
  || ((8192 <=? c) && (c <=? 8202))
  || (c =? 8232) || (c =? 8233) || (c =? 8239) || (c =? 8287)
  || (c =? 12288).

Fixpoint lstrip (s : str) : str :=
  match s with
  | c :: s' => if isspace c then lstrip s' else s
  | [] => []
  end.

Definition rstrip (s : str) : str := reverse (lstrip (reverse s)).

(** [s.strip()] *)
Definition strip (s : str) : str := rstrip (lstrip s).

(** [s.split()]: the maximal runs of non-whitespace.  [cur] is the run
    being read, latest code point first; [None] between runs. *)
Fixpoint split_ws_from (cur : option str) (s : str) : list str :=
  match s with
  | [] => match cur with Some w => [reverse w] | None => [] end
  | c :: s' =>
      if isspace c then
        match cur with
        | Some w => reverse w :: split_ws_from None s'
        | None => split_ws_from None s'
        end
      else split_ws_from (Some (c :: default [] cur)) s'
  end.

Definition split_ws (s : str) : list str := split_ws_from None s.

End Str.

(** ** The soul tag pattern [\[Soul:([^\]]+)\]]

    The pattern is a fixed literal, a greedy run of one or more code
    points other than the closing bracket, and the closing bracket.  The
    run is followed by a closing bracket or by the end of the text, so
    giving back code points of the run never turns a failure into a
    match: one left to right scan decides the match at a position. *)

Module Re.

Definition RBRACKET : N := 93.

(** The run [[^\]]+] and what follows it. *)
Fixpoint span_id (s : str) : str * str :=
  match s with
  | c :: s' =>
      if c =? RBRACKET then ([], s)
      else let '(run, rest) := span_id s' in (c :: run, rest)
  | [] => ([], [])
  end.

(** A match anchored at the head of [s]: group 1 and the number of
    code points the whole match covers. *)
Definition match_here (s : str) : option (str * nat) :=
  if Str.startswith (py "[Soul:") s then
    let '(run, rest) := span_id (drop 6 s) in
    match run, rest with
    | _ :: _, _ :: _ => Some (run, (6 + length run + 1)%nat)
    | _, _ => None
    end
  else None.

(** [re.search(r'\[Soul:([^\]]+)\]', s)], reduced to [group(1)] of the
    leftmost match. *)
Fixpoint search (s : str) : option str :=
  match match_here s with
  | Some (g, _) => Some g
  | None => match s with
            | [] => None
            | _ :: s' => search s'
            end
  end.

(** [re.sub(r'\[Soul:[^\]]+\]', '', s)]: every match, leftmost first
    and not overlapping, is deleted.  [skip] counts the code points of
    the current match that are still to be dropped. *)
Fixpoint sub_from (skip : nat) (s : str) : str :=
  match s with
  | [] => []
  | c :: s' =>
      match skip with
      | S k => sub_from k s'
      | O =>
          match match_here s with
          | Some (_, n) => sub_from (pred n) s'
          | None => c :: sub_from 0 s'
          end
      end
  end.

Definition sub (s : str) : str := sub_from 0 s.

End Re.

(** ** Exceptions

    Fallible code returns [res]: a value, or the raised exception; [msg]
    is what [str(e)] gives.  The classes of the first line derive from
    [Exception].  Those of the second line derive from [BaseException]
    only: a cancelled task, [sys.exit()] and Ctrl-C raise them, and an
    [except Exception] clause does not catch them. *)

Inductive exn_class :=
  | UnicodeEncodeError | TypeError | IndexError | OSError | RuntimeError
  | CancelledError | SystemExit | KeyboardInterrupt.

(** [issubclass(k, Exception)] *)
Definition is_exception (k : exn_class) : bool :=
  match k with
  | CancelledError | SystemExit | KeyboardInterrupt => false
  | _ => true
  end.

Record exn := Exn { cls : exn_class; msg : str }.

Inductive res (A : Type) :=
  | Ok (a : A)
  | Raise (e : exn).
Arguments Ok {A} a.
Arguments Raise {A} e.

#[global] Instance exn_class_eq_dec : EqDecision exn_class.
Proof. solve_decision. Defined.
#[global] Instance exn_eq_dec : EqDecision exn.
Proof. solve_decision. Defined.

(** ** [str.encode()], [hashlib.sha256] and [hmac] *)

Module Codec.

Definition is_surrogate (c : N) : bool := (0xD800 <=? c) && (c <=? 0xDFFF).

(** UTF-8 of one code point; a lone surrogate has none. *)
Definition encode_char (c : N) : option (list N) :=
  if c <? 0x80 then Some [c]
  else if c <? 0x800 then
    Some [N.lor 0xC0 (N.shiftr c 6); N.lor 0x80 (N.land c 0x3F)]
  else if c <? 0x10000 then
    if is_surrogate c then None
    else Some [N.lor 0xE0 (N.shiftr c 12);
               N.lor 0x80 (N.land (N.shiftr c 6) 0x3F);
               N.lor 0x80 (N.land c 0x3F)]
  else if c <? 0x110000 then
    Some [N.lor 0xF0 (N.shiftr c 18);
          N.lor 0x80 (N.land (N.shiftr c 12) 0x3F);
          N.lor 0x80 (N.land (N.shiftr c 6) 0x3F);
          N.lor 0x80 (N.land c 0x3F)]
  else None.

(** [s.encode()]: strict UTF-8. *)
Fixpoint encode (s : str) : res (list N) :=
  match s with
  | [] => Ok []
  | c :: s' =>
      match encode_char c with
      | None => Raise (Exn UnicodeEncodeError (py "surrogates not allowed"))
      | Some bs =>
          match encode s' with
          | Ok rest => Ok (bs ++ rest)
          | Raise e => Raise e
          end
      end
  end.

End Codec.

Module Sha256.

Definition add32 (a b : N) : N := (a + b) mod 0x100000000.
Definition rotr (n x : N) : N :=
  N.lor (N.shiftr x n) (N.shiftl x (32 - n) mod 0x100000000).
Definition not32 (x : N) : N := N.lxor x 0xFFFFFFFF.

Definition Ch (x y z : N) : N := N.lxor (N.land x y) (N.land (not32 x) z).
Definition Maj (x y z : N) : N :=
  N.lxor (N.lxor (N.land x y) (N.land x z)) (N.land y z).
Definition Sigma0 (x : N) : N := N.lxor (N.lxor (rotr 2 x) (rotr 13 x)) (rotr 22 x).
Definition Sigma1 (x : N) : N := N.lxor (N.lxor (rotr 6 x) (rotr 11 x)) (rotr 25 x).
Definition sigma0 (x : N) : N := N.lxor (N.lxor (rotr 7 x) (rotr 18 x)) (N.shiftr x 3).
Definition sigma1 (x : N) : N := N.lxor (N.lxor (rotr 17 x) (rotr 19 x)) (N.shiftr x 10).

(** The round constants are the first 32 bits of the fractional parts
    of the cube roots of the first 64 primes, and the initial hash value
    those of the square roots of the first 8. *)
Definition primes : list N :=
  [2; 3; 5; 7; 11; 13; 17; 19; 23; 29; 31; 37; 41; 43; 47; 53;
   59; 61; 67; 71; 73; 79; 83; 89; 97; 101; 103; 107; 109; 113; 127; 131;
   137; 139; 149; 151; 157; 163; 167; 173; 179; 181; 191; 193; 197; 199; 211; 223;
   227; 229; 233; 239; 241; 251; 257; 263; 269; 271; 277; 281; 283; 293; 307; 311].

(** The integer cube root below [2 ^ bits], one bit at a time. *)
Fixpoint cbrt_bits (bits : nat) (n r : N) : N :=
  match bits with
  | O => r
  | S b =>
      let r' := r + 2 ^ N.of_nat b in
      cbrt_bits b n (if r' * r' * r' <=? n then r' else r)
  end.

Definition frac_cbrt (p : N) : N := cbrt_bits 36 (p * 2 ^ 96) 0 mod 0x100000000.
Definition frac_sqrt (p : N) : N := N.sqrt (p * 2 ^ 64) mod 0x100000000.

Definition K : list N := Eval vm_compute in frac_cbrt <$> primes.
Definition H0 : list N := Eval vm_compute in frac_sqrt <$> take 8 primes.

(** Big-endian bytes of a number, [n] of them. *)
Fixpoint be_bytes (n : nat) (x : N) : list N :=
  match n with
  | O => []
  | S n' => be_bytes n' (N.shiftr x 8) ++ [N.land x 0xFF]
  end.

Definition be_word (bs : list N) : N :=
  foldl (fun acc b => N.lor (N.shiftl acc 8) b) 0 bs.

(** Padding: the bit 1, zeros up to 56 modulo 64, the bit length. *)
Definition pad (m : list N) : list N :=
  let len := length m in
  let zeros := ((64 - (len + 9) mod 64) mod 64)%nat in
  m ++ [0x80] ++ replicate zeros 0 ++ be_bytes 8 (8 * N.of_nat len).

(** Cut into consecutive groups of [k] items, [n] groups. *)
Fixpoint groups {A} (k n : nat) (l : list A) : list (list A) :=
  match n with
  | O => []
  | S n' => take k l :: groups k n' (drop k l)
  end.

(** The message schedule, latest word first. *)
Fixpoint schedule (n : nat) (w : list N) : list N :=
  match n with
  | O => w
  | S n' =>
      let at_ i := nth i w 0 in
      schedule n'
        (add32 (add32 (sigma1 (at_ 1%nat)) (at_ 6%nat))
               (add32 (sigma0 (at_ 14%nat)) (at_ 15%nat)) :: w)
  end.

Definition round (st : list N) (kw : N * N) : list N :=
  match st with
  | [a; b; c; d; e; f; g; h] =>
      let t1 := add32 (add32 (add32 h (Sigma1 e)) (add32 (Ch e f g) kw.1)) kw.2 in
      let t2 := add32 (Sigma0 a) (Maj a b c) in
      [add32 t1 t2; a; b; c; add32 d t1; e; f; g]
  | _ => st
  end.

Definition compress (h : list N) (block : list N) : list N :=
  let w0 := be_word <$> groups 4 16 block in
  let w := reverse (schedule 48 (reverse w0)) in
  zip_with add32 h (foldl round h (zip K w)).

(** [hashlib.sha256(m).digest()] *)
Definition digest (m : list N) : list N :=
  let p := pad m in
  let blocks := groups 64 (length p / 64) p in
  foldl compress H0 blocks ≫= be_bytes 4.

Definition hex_digit (d : N) : N := if d <? 10 then 48 + d else 87 + d.

(** [bytes.hex()] *)
Definition hex (bs : list N) : str :=
  bs ≫= (fun b => [hex_digit (N.shiftr b 4); hex_digit (N.land b 0xF)]).

Definition hexdigest (m : list N) : str := hex (digest m).

End Sha256.

Module Hmac.

Definition block_size : nat := 64.

(** [hmac.new(key, m, hashlib.sha256)] *)
Definition digest (key m : list N) : list N :=
  let k0 := if (block_size <? length key)%nat then Sha256.digest key else key in
  let k := k0 ++ replicate (block_size - length k0) 0 in
  let ipad := (fun b => N.lxor b 0x36) <$> k in
  let opad := (fun b => N.lxor b 0x5C) <$> k in
  Sha256.digest (opad ++ Sha256.digest (ipad ++ m)).

Definition hexdigest (key m : list N) : str := Sha256.hex (digest key m).

Definition is_ascii (s : str) : bool := forallb (fun c => c <? 128) s.

(** [hmac.compare_digest(a, b)] on two [str]: both must be ASCII; the
    comparison itself is equality (its running time is not modelled). *)
Definition compare_digest (a b : str) : res bool :=
  if is_ascii a && is_ascii b then Ok (Str.eqb a b)
  else Raise (Exn TypeError
    (py "comparing strings with non-ASCII characters is not supported")).

End Hmac.

(** ** [class Soul] *)

Module Soul.

Record t := Make {
  soul_id : str;
  seed : str;
  agent_name : str;
  paradigm : str;
  mode : str;
}.

(** [Soul.sign]: HMAC-SHA256 of the content under the seed, in hex.
    [encode()] of the seed is evaluated first. *)
Definition sign (self : t) (content : str) : res str :=
  match Codec.encode (seed self) with
  | Raise e => Raise e
  | Ok key =>
      match Codec.encode content with
      | Raise e => Raise e
      | Ok m => Ok (Hmac.hexdigest key m)
      end
  end.

(** [Soul.verify] *)
Definition verify (self : t) (content signature : str) : res bool :=
  match sign self content with
  | Raise e => Raise e
  | Ok expected => Hmac.compare_digest expected signature
  end.

End Soul.

(** ** [class Message]

    The [timestamp] field, a reading of the wall clock taken when the
    record is built, is left out: no operation of the client reads it. *)

Module Message.

Record t := Make {
  channel : str;
  nick : str;
  content : str;
  soul_id : option str;
  signature : option str;
}.

(** The [is_verified] property. *)
Definition is_verified (self : t) : bool :=
  bool_decide (soul_id self ≠ None) && bool_decide (signature self ≠ None).

End Message.

(** ** The world around the client

    What the event loop and the network do is recorded as a list of
    effects, in the order they happen.  [Dispatch] marks the entry of
    [_trigger]; the other effects are calls the source makes. *)

Inductive Arg :=
  | AStr (s : str)
  | AMsg (m : Message.t)
  | AExn (e : exn).

Inductive level := INFO | WARNING | ERROR.

(** A task can be cancelled wherever it waits.  The model has this
    where the client waits for the network, in [open_connection] and in
    [readline], which then raise [CancelledError]; a [Sleep] and a
    [Transmit] record calls that ran to their end. *)

Inductive Effect :=
  | Open                                  (* asyncio.open_connection(...) *)
  | Transmit (data : list N)                 (* writer.write(data); drain() *)
  | Close                                 (* writer.close() *)
  | Sleep (seconds : N)                   (* asyncio.sleep(seconds) *)
  | Log (lvl : level) (text : str)        (* logger.info/warning/error *)
  | Dispatch (event : str) (args : list Arg)
  | Call (handler : nat) (args : list Arg)
  | CreateTask (line : str).              (* asyncio.create_task(self._send(line)) *)

(** A registered callback: a name for the record of effects, and what a
    call does, returning or raising an exception of any class.  A
    coroutine function is awaited by [_trigger] and a plain function is
    called; both run to their end before the next handler starts, so
    one field covers both. *)
Record Handler := { h_id : nat; h_run : list Arg -> res unit }.

(** One [readline()] followed by [decode()]: the text of a line with its
    terminator, the empty bytes of a closed stream, or an exception of
    either call ([CancelledError] when the task is cancelled while it
    waits for the line). *)
Inductive Recv :=
  | RecvLine (text : str)
  | RecvEOF
  | RecvFail (e : exn).

(** An open stream: the lines that will arrive, and how many writes the
    peer takes before [drain()] raises ([None]: all of them). *)
Record Conn := { incoming : list Recv; writes : option nat }.

Inductive Attempt :=
  | Refused (e : exn)
  | Accepted (k : Conn).

(** ** [class AgentClient]

    [host], [port], [use_ssl] and [_services] take no part in what
    follows; the outcome of [open_connection] is read from [net]. *)

Record AgentClient := {
  nick : str;
  soul : option Soul.t;
  auto_reconnect : bool;
  reader : option (list Recv);
  writer : option (option nat);
  connected : bool;
  channels : gset str;
  _handlers : gmap str (list Handler);
  net : list Attempt;      (* outcomes of the connection attempts to come *)
  clock : N;               (* int(time.time()) *)
}.

Definition set_auto_reconnect (b : bool) (c : AgentClient) : AgentClient :=
  {| nick := nick c; soul := soul c; auto_reconnect := b; reader := reader c;
     writer := writer c; connected := connected c; channels := channels c;
     _handlers := _handlers c; net := net c; clock := clock c |}.
Definition set_reader (r : option (list Recv)) (c : AgentClient) : AgentClient :=
  {| nick := nick c; soul := soul c; auto_reconnect := auto_reconnect c; reader := r;
     writer := writer c; connected := connected c; channels := channels c;
     _handlers := _handlers c; net := net c; clock := clock c |}.
Definition set_writer (w : option (option nat)) (c : AgentClient) : AgentClient :=
  {| nick := nick c; soul := soul c; auto_reconnect := auto_reconnect c; reader := reader c;
     writer := w; connected := connected c; channels := channels c;
     _handlers := _handlers c; net := net c; clock := clock c |}.
Definition set_connected (b : bool) (c : AgentClient) : AgentClient :=
  {| nick := nick c; soul := soul c; auto_reconnect := auto_reconnect c; reader := reader c;
     writer := writer c; connected := b; channels := channels c;
     _handlers := _handlers c; net := net c; clock := clock c |}.
Definition set_channels (s : gset str) (c : AgentClient) : AgentClient :=
  {| nick := nick c; soul := soul c; auto_reconnect := auto_reconnect c; reader := reader c;
     writer := writer c; connected := connected c; channels := s;
     _handlers := _handlers c; net := net c; clock := clock c |}.
Definition set_handlers (h : gmap str (list Handler)) (c : AgentClient) : AgentClient :=
  {| nick := nick c; soul := soul c; auto_reconnect := auto_reconnect c; reader := reader c;
     writer := writer c; connected := connected c; channels := channels c;
     _handlers := h; net := net c; clock := clock c |}.
Definition set_net (n : list Attempt) (c : AgentClient) : AgentClient :=
  {| nick := nick c; soul := soul c; auto_reconnect := auto_reconnect c; reader := reader c;
     writer := writer c; connected := connected c; channels := channels c;
     _handlers := _handlers c; net := n; clock := clock c |}.
Definition set_clock (t : N) (c : AgentClient) : AgentClient :=
  {| nick := nick c; soul := soul c; auto_reconnect := auto_reconnect c; reader := reader c;
     writer := writer c; connected := connected c; channels := channels c;
     _handlers := _handlers c; net := net c; clock := t |}.

(** [AgentClient.__init__] *)
Definition init (nick : str) (soul : option Soul.t) (auto_reconnect : bool)
    (net : list Attempt) (clock : N) : AgentClient :=
  {| nick := nick; soul := soul; auto_reconnect := auto_reconnect;
     reader := None; writer := None; connected := false; channels := ∅;
     _handlers := list_to_map ((fun e => (py e, []))
        <$> ["connect"; "disconnect"; "message"; "join"; "part"; "quit"]%string);
     net := net; clock := clock |}.

(** ** Methods as computations

    A method runs from a client state to an outcome, the state it leaves
    (also when it raises: Python keeps the mutations made before the
    exception) and the effects it had. *)

Record Run (A : Type) := MkRun { out : res A; st : AgentClient; eff : list Effect }.
Arguments MkRun {A} out st eff.
Arguments out {A} r.
Arguments st {A} r.
Arguments eff {A} r.

Definition M (A : Type) : Type := AgentClient -> Run A.

#[global] Instance M_ret : MRet M := fun A a c => MkRun (Ok a) c [].
#[global] Instance M_bind : MBind M := fun A B f m c =>
  let r := m c in
  match out r with
  | Ok a => let r' := f a (st r) in MkRun (out r') (st r') (eff r ++ eff r')
  | Raise e => MkRun (Raise e) (st r) (eff r)
  end.

Definition raise {A} (e : exn) : M A := fun c => MkRun (Raise e) c [].
Definition lift {A} (r : res A) : M A := fun c => MkRun r c [].
Definition get : M AgentClient := fun c => MkRun (Ok c) c [].
Definition modify (f : AgentClient -> AgentClient) : M unit := fun c => MkRun (Ok tt) (f c) [].
Definition emit (e : Effect) : M unit := fun c => MkRun (Ok tt) c [e].

(** [try: m  except Exception as e: h e].  An exception that is no
    instance of [Exception] goes through. *)
Definition try_except {A} (m : M A) (h : exn -> M A) : M A := fun c =>
  let r := m c in
  match out r with
  | Ok a => r
  | Raise e =>
      if is_exception (cls e)
      then let r' := h e (st r) in MkRun (out r') (st r') (eff r ++ eff r')
      else r
  end.

(** [for x in xs: body x] *)
Fixpoint for_each {A} (xs : list A) (body : A -> M unit) : M unit :=
  match xs with
  | [] => mret tt
  | x :: xs' => body x ;; for_each xs' body
  end.

(** [l[0]] and [l[-1]] *)
Definition index0 (l : list str) : res str :=
  match l with
  | x :: _ => Ok x
  | [] => Raise (Exn IndexError (py "list index out of range"))
  end.
Definition index_last (l : list str) : res str :=
  match last l with
  | Some x => Ok x
  | None => Raise (Exn IndexError (py "list index out of range"))
  end.

(** [on(event)(func)] *)
Definition on (event : str) (func : Handler) : M unit :=
  modify (fun c =>
    let registry :=
      match _handlers c !! event with
      | Some _ => _handlers c
      | None => <[event := []]> (_handlers c)
      end in
    set_handlers (alter (fun hs => hs ++ [func]) event registry) c).

(** [self._handlers.get(event, [])] *)
Definition handlers_for (event : str) (c : AgentClient) : list Handler :=
  default [] (_handlers c !! event).

(** The body of the loop of [_trigger]: one handler, in its [try]. *)
Definition call_handler (event : str) (args : list Arg) (h : Handler) : M unit :=
  try_except
    (emit (Call (h_id h) args) ;; lift (h_run h args))
    (fun e => emit (Log ERROR (py "Handler error for " ++ event ++ py ": " ++ msg e))).

(** [_trigger] *)
Definition _trigger (event : str) (args : list Arg) : M unit :=
  emit (Dispatch event args) ;;
  c ← get;
  for_each (handlers_for event c) (call_handler event args).

(** [_send]: nothing without a writer; otherwise the encoded line goes
    out, unless the peer is gone and [drain()] raises.  The [debug] log
    is below the configured level. *)
Definition _send (message : str) : M unit :=
  c ← get;
  match writer c with
  | None => mret tt
  | Some credit =>
      data ← lift (Codec.encode (message ++ crlf));
      match credit with
      | Some O => raise (Exn OSError (py "Connection lost"))
      | Some (S n) => modify (set_writer (Some (Some n))) ;; emit (Transmit data)
      | None => emit (Transmit data)
      end
  end.

(** [str(n)] for a non-negative integer. *)
Definition str_of_N (n : N) : str :=
  py (DecimalString.NilZero.string_of_uint (N.to_uint n)).

(** [_authenticate_soul] *)
Definition _authenticate_soul (s : Soul.t) : M unit :=
  c ← get;
  let timestamp := str_of_N (clock c) in
  let auth_msg := py "AUTH:" ++ nick c ++ py ":" ++ timestamp in
  signature ← lift (Soul.sign s auth_msg);
  _send (py "SOUL " ++ Soul.soul_id s) ;;
  _send (py "PRIVMSG NickServ :IDENTIFY " ++ Soul.soul_id s ++ py " " ++ signature).

(** The soul tag of a PRIVMSG body: the identifier, and the body that
    is shown. *)
Definition soul_metadata (content : str) : option str * str :=
  if Str.contains (py "[Soul:") content then
    match Re.search content with
    | Some g => (Some g, Str.strip (Re.sub content))
    | None => (None, content)
    end
  else (None, content).

(** The nick in front of a message:
    [source.split("!")[0] if "!" in source else source]. *)
Definition acting_nick (source : str) : res str :=
  if Str.contains (py "!") source
  then index0 (Str.split (py "!") source)
  else Ok source.

(** The chain of [if command == ...] of [_parse_message]. *)
Definition on_command (nick_ command params : str) : M unit :=
  if Str.eqb command (py "PRIVMSG") then
    let '(target, _, content) := Str.partition (py " :") params in
    let '(soul_id, content) := soul_metadata content in
    let signature := None in
    _trigger (py "message")
      [AMsg (Message.Make target nick_ content soul_id signature)]
  else if Str.eqb command (py "JOIN") then
    channel ← lift (index_last (Str.split (py " :") params));
    c ← get;
    (if Str.eqb nick_ (nick c)
     then modify (set_channels ({[channel]} ∪ channels c))
     else mret tt) ;;
    _trigger (py "join") [AStr channel; AStr nick_]
  else if Str.eqb command (py "PART") then
    channel ← lift (index0 (Str.split_ws params));
    c ← get;
    (if Str.eqb nick_ (nick c)
     then modify (set_channels (channels c ∖ {[channel]}))
     else mret tt) ;;
    _trigger (py "part") [AStr channel; AStr nick_]
  else if Str.eqb command (py "QUIT") then
    _trigger (py "quit") [AStr nick_]
  else mret tt.

(** [_parse_message] *)
Definition _parse_message (line : str) : M unit :=
  if Str.startswith (py "PING") line then
    _send (py "PONG " ++ drop 5 line)
  else if Str.startswith (py ":") line then
    match Str.splitn (py " ") 2 (drop 1 line) with
    | source :: command :: rest =>
        let params := match rest with p :: _ => p | [] => [] end in
        nick_ ← lift (acting_nick source);
        on_command nick_ command params
    | _ => mret tt
    end
  else mret tt.

(** The loop of [_handle_messages], with the lines still to come as its
    argument: one turn reads a line, and goes on after it was parsed
    without an exception. *)
Fixpoint read_loop (pending : list Recv) : M unit :=
  c ← get;
  if negb (connected c) then mret tt
  else
    match pending with
    | [] => mret tt
    | r :: pending' =>
        modify (set_reader (Some pending')) ;;
        match r with
        | RecvEOF => mret tt
        | RecvLine [] => mret tt
        | RecvFail e =>
            try_except (raise e)
              (fun e => emit (Log ERROR (py "Message handling error: " ++ msg e)))
        | RecvLine text =>
            go_on ← try_except
              (_parse_message (Str.strip text) ;; mret true)
              (fun e =>
                 emit (Log ERROR (py "Message handling error: " ++ msg e)) ;;
                 mret false);
            if go_on : bool then read_loop pending' else mret tt
        end
    end.

(** [_handle_messages] *)
Definition _handle_messages : M unit :=
  c ← get;
  match reader c with
  | Some pending => read_loop pending
  | None => mret tt
  end ;;
  modify (set_connected false) ;;
  _trigger (py "disconnect") [].

(** [asyncio.open_connection]: the next outcome of [net]; when [net] has
    run out nobody listens. *)
Definition open_connection : M unit :=
  emit Open ;;
  c ← get;
  match net c with
  | [] => raise (Exn OSError (py "Connection refused"))
  | Refused e :: later => modify (set_net later) ;; raise e
  | Accepted k :: later =>
      modify (set_net later) ;;
      modify (set_reader (Some (incoming k))) ;;
      modify (set_writer (Some (writes k)))
  end.

(** The [try] block of [connect]. *)
Definition connect_try : M unit :=
  open_connection ;;
  c ← get;
  _send (py "NICK " ++ nick c) ;;
  _send (py "USER " ++ nick c ++ py " 0 * :" ++ nick c ++ py " Agent") ;;
  match soul c with
  | Some s => _authenticate_soul s
  | None => mret tt
  end ;;
  modify (set_connected true) ;;
  _trigger (py "connect") [] ;;
  _handle_messages.

(** The [except] block of [connect], up to the decision to reconnect
    (the answer), with the sleep before the new attempt. *)
Definition connect_except (e : exn) : M bool :=
  emit (Log ERROR (py "Connection error: " ++ msg e)) ;;
  modify (set_connected false) ;;
  _trigger (py "disconnect") [AExn e] ;;
  c ← get;
  if auto_reconnect c then
    emit (Log INFO (py "Reconnecting in 5 seconds...")) ;;
    emit (Sleep 5) ;;
    modify (fun c => set_clock (clock c + 5) c) ;;
    mret true
  else mret false.

(** [connect].  After a failed attempt the method awaits itself from
    inside its [except] block, so every new attempt runs one call
    deeper than the one before.  [fuel] is the depth that is left, and
    [None] says that it is used up: the run goes on, or the interpreter
    has reached its recursion limit, and neither is described here.
    An exception that is no instance of [Exception] leaves the method
    at once. *)
Fixpoint connect (fuel : nat) (c : AgentClient) : option (Run unit) :=
  match fuel with
  | O => None
  | S fuel' =>
      let r := connect_try c in
      match out r with
      | Ok _ => Some r
      | Raise e =>
          if is_exception (cls e) then
            let r' := connect_except e (st r) in
            match out r' with
            | Ok true =>
                match connect fuel' (st r') with
                | Some r'' => Some (MkRun (out r'') (st r'') (eff r ++ eff r' ++ eff r''))
                | None => None
                end
            | Ok false => Some (MkRun (Ok tt) (st r') (eff r ++ eff r'))
            | Raise e' => Some (MkRun (Raise e') (st r') (eff r ++ eff r'))
            end
          else Some r
      end
  end.

(** [asyncio.create_task(self._send(line))]: the task is created and
    runs later.  [loop] says whether the caller runs under the event
    loop, as the handlers and the coroutines of the client do; without
    a running loop the call raises [RuntimeError].  The four methods
    that follow are plain functions, which can be called either way,
    and hand their [loop] on. *)
Definition create_task_send (loop : bool) (line : str) : M unit :=
  if loop then emit (CreateTask line)
  else raise (Exn RuntimeError (py "no running event loop")).

(** [say] *)
Definition say (loop : bool) (target message : str) (sign : bool) : M unit :=
  c ← get;
  message ←
    match sign, soul c with
    | true, Some s =>
        signature ← lift (Soul.sign s message);
        mret (py "[Soul:" ++ Soul.soul_id s ++ py "] " ++ message
              ++ py " [Sig:" ++ take 16 signature ++ py "...]")
    | _, _ => mret message
    end;
  create_task_send loop (py "PRIVMSG " ++ target ++ py " :" ++ message).

(** [join] *)
Definition join (loop : bool) (channel : str) : M unit :=
  create_task_send loop (py "JOIN " ++ channel).


(** [quit] *)
Definition quit (loop : bool) (reason : str) : M unit :=
  modify (set_auto_reconnect false) ;;
  create_task_send loop (py "QUIT :" ++ reason) ;;
  c ← get;
  match writer c with
  | Some _ => emit Close
  | None => mret tt
  end.

(** ** Reading the record of effects *)

(** A run that comes after the effects [t]. *)
Definition after {A} (t : list Effect) (r : Run A) : Run A :=
  MkRun (out r) (st r) (t ++ eff r).

(** What the handlers [hs] do when they are called in turn with [args]:
    each one is called; one that raises an instance of [Exception]
    leaves a log entry, and one that raises anything else ends the
    calls. *)
Fixpoint handled (event : str) (args : list Arg) (hs : list Handler) : list Effect :=
  match hs with
  | [] => []
  | h :: hs' =>
      Call (h_id h) args ::
      match h_run h args with
      | Ok _ => handled event args hs'
      | Raise e =>
          if is_exception (cls e)
          then Log ERROR (py "Handler error for " ++ event ++ py ": " ++ msg e)
               :: handled event args hs'
          else []
      end
  end.

(** How these calls end: with the first exception that is no instance
    of [Exception], when a handler raises one. *)
Fixpoint escaping (args : list Arg) (hs : list Handler) : res unit :=
  match hs with
  | [] => Ok tt
  | h :: hs' =>
      match h_run h args with
      | Ok _ => escaping args hs'
      | Raise e => if is_exception (cls e) then escaping args hs' else Raise e
      end
  end.

(** A handler that, called with [args], returns or raises an instance
    of [Exception]. *)
Definition contained (args : list Arg) (h : Handler) : bool :=
  match h_run h args with
  | Ok _ => true
  | Raise e => is_exception (cls e)
  end.

(** A handler that does so whatever its arguments, and a client whose
    handlers all do. *)
Definition polite (h : Handler) : Prop := ∀ args, contained args h = true.

Definition polite_handlers (c : AgentClient) : Prop :=
  ∀ event h, h ∈ handlers_for event c → polite h.

(** A stream and a network on which no call raises anything but an
    instance of [Exception]. *)
Definition quiet_recv (r : Recv) : bool :=
  match r with
  | RecvFail e => is_exception (cls e)
  | _ => true
  end.

Definition quiet_stream (c : AgentClient) : bool :=
  forallb quiet_recv (default [] (reader c)).

Definition quiet_attempt (a : Attempt) : bool :=
  match a with
  | Refused e => is_exception (cls e)
  | Accepted k => forallb quiet_recv (incoming k)
  end.

Definition quiet_net (c : AgentClient) : bool := forallb quiet_attempt (net c).

(** The handlers called, in the order of the calls. *)
Definition calls (t : list Effect) : list nat :=
  t ≫= (fun e => match e with Call h _ => [h] | _ => [] end).

(** The events dispatched, in order. *)
Definition dispatched (t : list Effect) : list (str * list Arg) :=
  t ≫= (fun e => match e with Dispatch ev args => [(ev, args)] | _ => [] end).

(** The [Message] records handed to [_trigger]. *)
Definition messages (t : list Effect) : list Message.t :=
  dispatched t ≫= (fun d =>
    d.2 ≫= (fun a => match a with AMsg m => [m] | _ => [] end)).

(** The data written to the transport, in order. *)
Definition written (t : list Effect) : list (list N) :=
  t ≫= (fun e => match e with Transmit d => [d] | _ => [] end).

(** ** Clients and lines used as examples *)

(** A client with nick [Bot], connected, on a transport that takes
    every write. *)
Definition bot : AgentClient :=
  set_writer (Some None) (set_connected true (init (py "Bot") None true [] 0)).

(** The writer takes one more write. *)
Definition can_write (c : AgentClient) : bool :=
  match writer c with
  | Some (Some O) | None => false
  | Some _ => true
  end.

(** The client after one write went out. *)
Definition after_write (c : AgentClient) : AgentClient :=
  match writer c with
  | Some (Some (S n)) => set_writer (Some (Some n)) c
  | _ => c
  end.

(** A line as [say] with [sign=True] composes it, relayed by the server. *)
Definition signed_line : str :=
  py ":Alice!u@h PRIVMSG #general :[Soul:deadbeef] hi [Sig:0123456789abcdef...]".

(** A line whose soul tag stands in the middle of the content. *)
Definition tagged_line : str :=
  py ":Alice!u@h PRIVMSG #general :hello [Soul:deadbeef] world [Sig:0123456789abcdef...]".

(** A PRIVMSG line from [source], with or without parameters. *)
Definition privmsg_line (source : str) (params : option str) : str :=
  py ":" ++ source ++ py " PRIVMSG"
  ++ match params with Some p => py " " ++ p | None => [] end.

(** The body that [say] composes for a signed message: the soul tag,
    the text, and the annotation with the head of the signature. *)
Definition signed_body (sid text sig : str) : str :=
  py "[Soul:" ++ sid ++ py "] " ++ text ++ py " [Sig:" ++ sig ++ py "...]".


(** [Bot], connected, with the given lines still to arrive. *)
Definition listening (lines : list Recv) : AgentClient :=
  set_reader (Some lines) bot.

(** A peer that accepts the connection, takes every write and closes:
    the first [readline()] returns the empty bytes. *)
Definition closing_peer : Conn := {| incoming := [RecvEOF]; writes := None |}.

(** A peer that accepts the connection and is gone before the first
    write is drained. *)
Definition vanishing_peer : Conn := {| incoming := []; writes := Some 0%nat |}.

(** A new client with nick [Bot], no soul and auto-reconnect enabled,
    in front of the given connection attempts. *)
Definition fresh_bot (net : list Attempt) : AgentClient :=
  init (py "Bot") None true net 0.

(** The number of connection attempts in a record of effects. *)
Definition attempts (t : list Effect) : nat :=
  length (t ≫= (fun e => match e with Open => [tt] | _ => [] end)).

(** The sleeps in a record of effects, in order. *)
Definition slept (t : list Effect) : list N :=
  t ≫= (fun e => match e with Sleep n => [n] | _ => [] end).

(** Three handlers: one that returns, one that raises an [Exception],
    and one that calls [sys.exit]. *)
Definition counting : Handler := {| h_id := 1; h_run := fun _ => Ok tt |}.
Definition failing : Handler :=
  {| h_id := 2; h_run := fun _ => Raise (Exn RuntimeError (py "boom")) |}.
Definition leaving : Handler :=
  {| h_id := 3; h_run := fun _ => Raise (Exn SystemExit (py "bye")) |}.

(** A soul whose seed is the text [seed]. *)
Definition soul_of_seed : Soul.t := Soul.Make (py "id") (py "seed") [] [] [].

(** The message that [signed_line] gives. *)
Definition signed_message : Message.t :=
  Message.Make (py "#general") (py "Alice")
    (py "hi [Sig:0123456789abcdef...]") (Some (py "deadbeef")) None.

(** A PRIVMSG line without the [ :] separator, and its parameters. *)
Definition bare_privmsg : str := py ":Alice!u@h PRIVMSG #general hello".
Definition bare_params : str := py "#general hello".

(** A PART line without parameters, as it arrives, and the line after. *)
Definition part_line : Recv := RecvLine (py ":Bot!u@h PART" ++ crlf).
Definition later_line : Recv := RecvLine (py "PING :later" ++ crlf).

(** Effects other than a connection attempt or a sleep. *)
Definition steady (e : Effect) : bool :=
  match e with
  | Open | Sleep _ => false
  | _ => true
  end.

(** ** [class SoulAuth] *)

Module SoulAuth.

(** [hashlib.sha256(s.encode()).hexdigest()] *)
Definition sha256_hex (s : str) : res str :=
  match Codec.encode s with
  | Ok bs => Ok (Sha256.hexdigest bs)
  | Raise e => Raise e
  end.

(** [SoulAuth.from_seed] *)
Definition from_seed (seed agent_name paradigm mode : str) : res Soul.t :=
  match sha256_hex (py "identity:" ++ seed) with
  | Ok soul_id => Ok (Soul.Make soul_id seed agent_name paradigm mode)
  | Raise e => Raise e
  end.

(** [sep.join(parts)] *)
Fixpoint join_with (sep : str) (parts : list str) : str :=
  match parts with
  | [] => []
  | [p] => p
  | p :: rest => p ++ sep ++ join_with sep rest
  end.

(** [SoulAuth.from_imagony] *)
Definition from_imagony (api_key agent_name paradigm mode : str) : res Soul.t :=
  let components := [api_key; agent_name; paradigm; py "IMAGONY_SOUL_V1"] in
  let seed_material := join_with (py ":") components in
  match sha256_hex seed_material with
  | Ok seed => from_seed seed agent_name paradigm mode
  | Raise e => Raise e
  end.

End SoulAuth.

(** [create_client]: a soul when a non-empty seed is given.  [host] and
    [port] are left to [net], as in [init]. *)
Definition create_client (nick : str) (soul_seed : option str)
    (net : list Attempt) (clock : N) : res AgentClient :=
  match soul_seed with
  | Some ((_ :: _) as seed) =>
      match SoulAuth.from_seed seed [] [] [] with
      | Ok s => Ok (init nick (Some s) true net clock)
      | Raise e => Raise e
      end
  | _ => Ok (init nick None true net clock)
  end.

(** ** The service marketplace *)

(** The text of an offer and of a request. *)
Definition offer_text (service price provider sid : str) : str :=
  py "SERVICE OFFER: " ++ service ++ py " | Price: " ++ price
  ++ py " | Provider: " ++ provider ++ py " | Soul: " ++ sid.


(** [offer_service] and [request_service] are coroutines: they run
    under the event loop, and so does the [say] they call. *)

(** [offer_service] *)
Definition offer_service (channel service price : str) : M unit :=
  c ← get;
  match soul c with
  | Some s =>
      say true channel (offer_text service price (nick c) (Soul.soul_id s)) true
  | None =>
      emit (Log WARNING (py "Cannot offer service without soul authentication"))
  end.


(** ** The message handler of [examples/bot_runner.py] *)

Module BotRunner.

(** [on_message]: three independent [if]s on the start of the content.
    The handler is called by [_trigger], under the event loop. *)
Definition on_message (msg : Message.t) : M unit :=
  (if Str.startswith (py "!help") (Message.content msg) then
     say true (Message.channel msg)
       (py "Available commands: !help, !soul, !services, !verify <soul_id>") false
   else mret tt) ;;
  (if Str.startswith (py "!soul") (Message.content msg) then
     match Message.soul_id msg with
     | Some ((_ :: _) as sid) =>
         say true (Message.channel msg)
           (Message.nick msg ++ py " is soul-verified: " ++ take 16 sid ++ py "...") false
     | _ =>
         say true (Message.channel msg)
           (Message.nick msg
            ++ py " has no soul verification. Register with SOUL command.") false
     end
   else mret tt) ;;
  (if Str.startswith (py "!services") (Message.content msg) then
     say true (Message.channel msg)
       (py "Available services: Code Review, Security Audit, Content Creation. "
        ++ py "Use SERVICE OFFER or SERVICE REQUEST in #hire") false
   else mret tt).

End BotRunner.

(** ** Properties of computations

    [Emits P m]: every effect of [m] satisfies [P], whatever the client
    and however [m] ends.  [Keeps f m]: [m] leaves the reading [f] of
    the client as it was. *)

Definition Emits {A} (P : Effect -> bool) (m : M A) : Prop :=
  ∀ c, forallb P (eff (m c)) = true.

Definition Keeps {A X} (f : AgentClient -> X) (m : M A) : Prop :=
  ∀ c, f (st (m c)) = f c.

(** A write ends with CR LF. *)
Definition ends_crlf (e : Effect) : bool :=
  match e with
  | Transmit d => Str.eqb (drop (length d - 2) d) crlf
  | _ => true
  end.

(** What the registry, the identity and the settings of a client are:
    everything the parser and the read loop never write. *)
Definition settings (c : AgentClient) :=
  (nick c, soul c, auto_reconnect c, _handlers c, net c, clock c).

(** Lower-case hexadecimal digits. *)
Definition is_hex_digit (c : N) : bool :=
  ((48 <=? c) && (c <=? 57)) || ((97 <=? c) && (c <=? 102)).

Definition is_hex64 (s : str) : Prop :=
  length s = 64%nat ∧ forallb is_hex_digit s = true.

(** No whitespace in a text. *)
Definition no_space (s : str) : bool := forallb (fun x => negb (Str.isspace x)) s.

(** The soul of the example agent, as [from_imagony] derives it. *)
Definition wilsond_soul : Soul.t :=
  Soul.Make
    (py "8b685e83d55d8265a5620a242c44b65813190124ea9b4cd31faabf731fd2cef7")
    (py "cd05629000dbfeb29d231f1ca68703acec0f74f8a248f65958f7e8fe9b1fd727")
    (py "Wilsond") (py "existentialist") (py "REAL").

(** The server relays to the other clients a line that a client sent,
    with the sender in front. *)
Definition relayed (source line : str) : str := py ":" ++ source ++ py " " ++ line.

(** The soul [from_seed] derives from the seed [seed], and a client
    with nick [Bot] that holds it. *)
Definition seed_soul : Soul.t :=
  Soul.Make
    (py "9da8466e05888074a47d9bbdb02171214294a76a5c7ad65a4f3b6c433a1dc914")
    (py "seed") [] [] [].

Definition agent : AgentClient :=
  set_writer (Some None) (init (py "Bot") (Some seed_soul) true [] 0).

(** The offer of [agent], and its signature. *)
Definition agent_offer : str :=
  offer_text (py "Code Review") (py "5 CLAW tokens") (py "Bot") (Soul.soul_id seed_soul).

Definition agent_offer_signature : str :=
  py "6ae6cfc42d62689a5cc29f10cd4cec5b1333317bd813a3acaebbea9d99d5225e".

(** [Ends Q m]: when [m] returns without an exception, it leaves a
    client that satisfies [Q]. *)
Definition Ends {A} (Q : AgentClient -> Prop) (m : M A) : Prop :=
  ∀ c a, out (m c) = Ok a → Q (st (m c)).


(** What the bot of [bot_runner.py] answers to [!soul]. *)
Definition soul_reply (msg : Message.t) : str :=
  py "PRIVMSG " ++ Message.channel msg ++ py " :" ++ Message.nick msg
  ++ match Message.soul_id msg with
     | Some ((_ :: _) as sid) => py " is soul-verified: " ++ take 16 sid ++ py "..."
     | _ => py " has no soul verification. Register with SOUL command."
     end.

(** A [!soul] message that carries a soul tag, as it is relayed. *)
Definition soul_query : str :=
  py ":Alice!u@h PRIVMSG #general :[Soul:deadbeef0123456789abcdef] !soul".

(** ** When nothing raises past [except Exception]

    A client is calm when its handlers are polite and its stream is
    quiet.  [Mild m]: on a calm client [m] raises instances of
    [Exception] only.  [Calm m]: [m] leaves a calm client calm. *)

Definition calm (c : AgentClient) : Prop :=
  polite_handlers c ∧ quiet_stream c = true.

Definition Mild {A} (m : M A) : Prop :=
  ∀ c e, calm c → out (m c) = Raise e → is_exception (cls e) = true.

Definition Calm {A} (m : M A) : Prop := ∀ c, calm c → calm (st (m c)).

(** What [connect] has done by the end of its [n]-th attempt, also in
    a run that goes on after it: the effects of the attempts so far. *)
Fixpoint connect_upto (n : nat) (c : AgentClient) : list Effect :=
  match n with
  | O => []
  | S n' =>
      let r := connect_try c in
      match out r with
      | Ok _ => eff r
      | Raise e =>
          if is_exception (cls e) then
            let r' := connect_except e (st r) in
            eff r ++ eff r' ++
            match out r' with
            | Ok true => connect_upto n' (st r')
            | _ => []
            end
          else eff r
      end
  end.

(** A peer that takes one write and is gone, and a client in front of
    it: after this peer nobody listens, and every new attempt is
    refused. *)
Definition short_lived_peer : Conn := {| incoming := []; writes := Some 1%nat |}.

Definition stuck : AgentClient := fresh_bot [Accepted short_lived_peer].

(** * Checks of the model on known values *)

Example check_splitn :
  Str.splitn (py " ") 2 (py "Alice!u@h PRIVMSG #general :hello [Soul:deadbeef] world")
  = [py "Alice!u@h"; py "PRIVMSG"; py "#general :hello [Soul:deadbeef] world"].
Proof. by vm_compute. Qed.

Example check_split_last : Str.split (py " :") (py "#a :b :c") = [py "#a"; py "b"; py "c"].
Proof. by vm_compute. Qed.

Example check_split_ws : Str.split_ws (py "  a b  c ") = [py "a"; py "b"; py "c"].
Proof. by vm_compute. Qed.

Example check_split_ws_empty : Str.split_ws [] = [].
Proof. reflexivity. Qed.

Example check_partition_absent : Str.partition (py " :") (py "#a b") = (py "#a b", [], []).
Proof. by vm_compute. Qed.

Example check_search : Re.search (py "hello [Soul:deadbeef] world") = Some (py "deadbeef").
Proof. by vm_compute. Qed.

Example check_search_empty_id : Re.search (py "x [Soul:] y") = None.
Proof. by vm_compute. Qed.

Example check_sub : Str.strip (Re.sub (py "hello [Soul:deadbeef] world")) = py "hello  world".
Proof. by vm_compute. Qed.

Example check_sub_leaves_new_tag : Re.sub (py "[Soul[Soul:a]:b]") = py "[Soul:b]".
Proof. by vm_compute. Qed.

Example check_round_constants :
  take 2 Sha256.K = [0x428a2f98; 0x71374491] ∧ last Sha256.K = Some 0xc67178f2 ∧
  take 2 Sha256.H0 = [0x6a09e667; 0xbb67ae85] ∧ last Sha256.H0 = Some 0x5be0cd19.
Proof. by vm_compute. Qed.

Example check_sha_abc : Sha256.hexdigest (py "abc")
  = py "ba7816bf8f01cfea414140de5dae2223b00361a396177a9cb410ff61f20015ad".
Proof. by vm_compute. Qed.
Example check_sha_empty : Sha256.hexdigest []
  = py "e3b0c44298fc1c149afbf4c8996fb92427ae41e4649b934ca495991b7852b855".
Proof. by vm_compute. Qed.
Example check_sha_56 : Sha256.hexdigest (replicate 56 97)
  = py "b35439a4ac6f0948b6d6f9e3c6af0f5f590ce20f1bde7090ef7970686ec6738a".
Proof. by vm_compute. Qed.
Example check_hmac_fox : Hmac.hexdigest (py "key") (py "The quick brown fox jumps over the lazy dog")
  = py "f7bc83f430538424b13298e6aa6fb143ef4d59a14946175997479dbc2d1a3cd8".
Proof. by vm_compute. Qed.
Example check_hmac_long : Hmac.hexdigest (replicate 70 107) (py "hello")
  = py "73473f937d4c181ed6aa87ce97d6db7dc732e19dd43e60c8ab7ee3aed2d9f4b0".
Proof. by vm_compute. Qed.


Example check_sign_unicode :
  Soul.sign (Soul.Make [] [115; 233; 101; 100] [] [] [])
            [104; 8364; 108; 108; 111; 128512]
  = Ok (py "9a2d71397f664d748993acf909c86670d4600938a472517fe66f3d522668207c").
Proof. by vm_compute. Qed.

(** * Properties *)

(** ** Running computations *)

Lemma run_bind {A B} (m : M A) (f : A -> M B) (c : AgentClient) :
  (m ≫= f) c =
  match out (m c) with
  | Ok a => MkRun (out (f a (st (m c)))) (st (f a (st (m c))))
                  (eff (m c) ++ eff (f a (st (m c))))
  | Raise e => MkRun (Raise e) (st (m c)) (eff (m c))
  end.
Proof. reflexivity. Qed.

Lemma bind_ok {A B} (m : M A) (f : A -> M B) c a c' t :
  m c = MkRun (Ok a) c' t → (m ≫= f) c = after t (f a c').
Proof. intros H. by rewrite run_bind, H. Qed.

(** The JOIN and PART branches of [on_command] once the channel is
    known: read the client, compare the nicks, update the membership. *)
Ltac own_nick_branch n c :=
  cbn [lift out st eff]; rewrite run_bind; cbn [get out st eff];
  rewrite run_bind;
  destruct (Str.eqb n (nick c)); cbn [modify mret M_ret out st eff app].

Lemma run_eta {A} (r : Run A) : MkRun (out r) (st r) (eff r) = r.
Proof. by destruct r. Qed.

Lemma calls_app t1 t2 : calls (t1 ++ t2) = calls t1 ++ calls t2.
Proof. apply bind_app. Qed.

Lemma dispatched_app t1 t2 : dispatched (t1 ++ t2) = dispatched t1 ++ dispatched t2.
Proof. apply bind_app. Qed.

Lemma messages_app t1 t2 : messages (t1 ++ t2) = messages t1 ++ messages t2.
Proof. unfold messages. rewrite dispatched_app. apply bind_app. Qed.

Lemma contained_all args hs :
  forallb (contained args) hs = true ↔
  ∀ h e, h ∈ hs → h_run h args = Raise e → is_exception (cls e) = true.
Proof.
  induction hs as [|h hs IH]; cbn [forallb].
  - split; [|done]. intros _ h e Hin. by apply elem_of_nil in Hin.
  - rewrite andb_true_iff, IH. unfold contained. split.
    + intros [Hh Hs] h' e [->|Hin]%elem_of_cons He; [by rewrite He in Hh|eauto].
    + intros H. split.
      * destruct (h_run h args) as [u|e] eqn:He; [done|].
        apply (H h e); [by left|done].
      * intros h' e Hin. apply H. by right.
Qed.

Lemma handled_app event args hs1 hs2 :
  forallb (contained args) hs1 = true →
  handled event args (hs1 ++ hs2) = handled event args hs1 ++ handled event args hs2.
Proof.
  induction hs1 as [|h hs1 IH]; [done|].
  cbn [forallb]. intros [Hh Hs]%andb_true_iff. unfold contained in Hh.
  cbn [app handled]. rewrite (IH Hs).
  destruct (h_run h args) as [u|e]; [done|]. by rewrite Hh.
Qed.

Lemma escaping_app args hs1 hs2 :
  forallb (contained args) hs1 = true →
  escaping args (hs1 ++ hs2) = escaping args hs2.
Proof.
  induction hs1 as [|h hs1 IH]; [done|].
  cbn [forallb]. intros [Hh Hs]%andb_true_iff. unfold contained in Hh.
  cbn [app escaping]. rewrite (IH Hs).
  destruct (h_run h args) as [u|e]; [done|]. by rewrite Hh.
Qed.

Lemma escaping_contained args hs :
  forallb (contained args) hs = true → escaping args hs = Ok tt.
Proof.
  intros H. rewrite <- (app_nil_r hs). by rewrite escaping_app.
Qed.

(** What gets out of the calls is never an instance of [Exception]. *)
Lemma escaping_raise args hs e :
  escaping args hs = Raise e → is_exception (cls e) = false.
Proof.
  induction hs as [|h hs IH]; [done|]. cbn [escaping].
  destruct (h_run h args) as [u|e']; [done|].
  destruct (is_exception (cls e')) eqn:E; [done|]. by intros [= <-].
Qed.

Lemma calls_handled event args hs :
  forallb (contained args) hs = true → calls (handled event args hs) = h_id <$> hs.
Proof.
  induction hs as [|h hs IH]; [done|].
  cbn [forallb]. intros [Hh Hs]%andb_true_iff. unfold contained in Hh.
  cbn [handled fmap list_fmap]. rewrite <- (IH Hs).
  destruct (h_run h args) as [u|e]; [done|]. by rewrite Hh.
Qed.

Lemma dispatched_handled event args hs : dispatched (handled event args hs) = [].
Proof.
  induction hs as [|h hs IH]; [done|]. cbn [handled].
  destruct (h_run h args) as [u|e]; [done|]. by destruct (is_exception (cls e)).
Qed.

Lemma written_handled event args hs : written (handled event args hs) = [].
Proof.
  induction hs as [|h hs IH]; [done|]. cbn [handled].
  destruct (h_run h args) as [u|e]; [done|]. by destruct (is_exception (cls e)).
Qed.

(** ** [_trigger] and [on] *)

Lemma call_handler_run event args h c :
  call_handler event args h c
  = MkRun (escaping args [h]) c (handled event args [h]).
Proof.
  unfold call_handler, try_except. rewrite run_bind.
  cbn [emit lift out st eff app escaping handled].
  destruct (h_run h args) as [[]|e]; cbn [out st eff app]; [done|].
  by destruct (is_exception (cls e)).
Qed.

Lemma for_each_handlers event args hs c :
  for_each hs (call_handler event args) c
  = MkRun (escaping args hs) c (handled event args hs).
Proof.
  induction hs as [|h hs IH]; [reflexivity|].
  cbn [for_each]. rewrite run_bind, call_handler_run.
  cbn [out st eff escaping handled]. rewrite IH. cbn [out st eff].
  destruct (h_run h args) as [[]|e]; cbn [app]; [done|].
  by destruct (is_exception (cls e)).
Qed.

Lemma trigger_run event args c :
  _trigger event args c =
  MkRun (escaping args (handlers_for event c)) c
        (Dispatch event args :: handled event args (handlers_for event c)).
Proof.
  unfold _trigger. rewrite run_bind. cbn [emit out st eff].
  rewrite run_bind. cbn [get out st eff]. by rewrite for_each_handlers.
Qed.

Lemma trigger_out event args c :
  out (_trigger event args c) = escaping args (handlers_for event c).
Proof. by rewrite trigger_run. Qed.

Lemma handlers_for_on event h c :
  handlers_for event (st (on event h c)) = handlers_for event c ++ [h].
Proof.
  unfold on, handlers_for, modify. simpl.
  destruct (_handlers c !! event) as [hs|] eqn:E.
  - by rewrite lookup_alter_eq, E.
  - by rewrite lookup_alter_eq, lookup_insert_eq.
Qed.

Lemma on_ok event h c : out (on event h c) = Ok tt.
Proof. reflexivity. Qed.

Lemma handlers_for_register event hs c :
  out (for_each hs (on event) c) = Ok tt ∧
  handlers_for event (st (for_each hs (on event) c)) = handlers_for event c ++ hs.
Proof.
  revert c. induction hs as [|h hs IH]; intros c.
  - simpl. by rewrite app_nil_r.
  - simpl for_each. rewrite run_bind.
    pose proof (handlers_for_on event h c) as Hh.
    pose proof (on_ok event h c) as Ho.
    destruct (on event h c) as [o c1 e1]. simpl in Hh, Ho. subst o. simpl.
    destruct (IH c1) as [-> ->]. by rewrite Hh, <- app_assoc.
Qed.

(** C9, as the claim has it: a handler that raises [SystemExit] is not
    caught.  The dispatch stops there, the handler registered after it
    is not called, and the exception reaches the caller. *)
Lemma exit_in_handler_stops_dispatch :
  let c := st (for_each [leaving; counting] (on (py "message")) bot) in
  handlers_for (py "message") c = [leaving; counting] ∧
  out (_trigger (py "message") [] c) = Raise (Exn SystemExit (py "bye")) ∧
  calls (eff (_trigger (py "message") [] c)) = [h_id leaving] ∧
  eff (_trigger (py "message") [] c)
    = [Dispatch (py "message") []; Call (h_id leaving) []] ∧
  ¬ (out (_trigger (py "message") [] c) = Ok tt ∧
     calls (eff (_trigger (py "message") [] c)) = [h_id leaving; h_id counting]).
Proof.
  intros c. split_and!; try by vm_compute.
  intros [H _]. vm_compute in H. discriminate.
Qed.

(** C9, amended. Handlers registered with [on] are called by [_trigger]
    in the order of their registration, after those registered before,
    and [_trigger] leaves the client as it was.  As long as the
    handlers return or raise instances of [Exception], every one is
    called, each failure is logged, and [_trigger] returns without an
    exception.  The first handler that raises anything else ends the
    dispatch: the handlers up to it were called, those after it are
    not, and its exception reaches the caller. *)
Theorem trigger_calls_all_in_order (c : AgentClient) (event : str)
    (args : list Arg) (hs : list Handler) :
  let c' := st (for_each hs (on event) c) in
  let r := _trigger event args c' in
  let all := handlers_for event c ++ hs in
  st r = c' ∧
  (forallb (contained args) all = true →
   out r = Ok tt ∧
   calls (eff r) = h_id <$> all ∧
   eff r = Dispatch event args :: handled event args all ∧
   ∀ h e, h ∈ all → h_run h args = Raise e →
     Log ERROR (py "Handler error for " ++ event ++ py ": " ++ msg e) ∈ eff r) ∧
  (∀ before h rest e,
     all = before ++ h :: rest →
     forallb (contained args) before = true →
     h_run h args = Raise e →
     is_exception (cls e) = false →
     out r = Raise e ∧
     calls (eff r) = h_id <$> (before ++ [h]) ∧
     eff r = Dispatch event args :: handled event args before ++ [Call (h_id h) args]).
Proof.
  intros c' r all. subst r. rewrite trigger_run. cbn [out st eff].
  destruct (handlers_for_register event hs c) as [_ H]. subst c'. rewrite H.
  fold all. split; [done|]. split.
  - intros Hall. split; [by apply escaping_contained|].
    split; [by apply calls_handled|]. split; [done|].
    intros h e Hin He. apply elem_of_cons. right.
    clear H. induction all as [|h' all' IH]; [by apply elem_of_nil in Hin|].
    cbn [forallb] in Hall. apply andb_true_iff in Hall as [Hh' Hall'].
    unfold contained in Hh'. cbn [handled].
    apply elem_of_cons in Hin as [<-|Hin].
    + rewrite He in *. rewrite Hh'. apply elem_of_cons. right.
      apply elem_of_cons. by left.
    + apply elem_of_cons. right.
      destruct (h_run h' args) as [u|e'].
      * by apply IH.
      * rewrite Hh'. apply elem_of_cons. right. by apply IH.
  - intros before h rest e -> Hb He Hf.
    rewrite escaping_app, handled_app by done.
    cbn [escaping handled]. rewrite He, Hf.
    split; [done|]. split; [|done].
    change (Dispatch event args :: ?t) with ([Dispatch event args] ++ t).
    rewrite !calls_app, calls_handled by done. by rewrite fmap_app.
Qed.

Lemma trigger_calls_all_in_order_witness :
  let c := st (for_each [failing; counting] (on (py "message")) bot) in
  forallb (contained []) (handlers_for (py "message") bot ++ [failing; counting]) = true ∧
  out (_trigger (py "message") [] c) = Ok tt ∧
  calls (eff (_trigger (py "message") [] c)) = [h_id failing; h_id counting] ∧
  eff (_trigger (py "message") [] c)
    = [Dispatch (py "message") []; Call (h_id failing) [];
       Log ERROR (py "Handler error for message: boom"); Call (h_id counting) []].
Proof.
  intros c.
  assert (forallb (contained [])
            (handlers_for (py "message") bot ++ [failing; counting]) = true) as Hall
    by (by vm_compute).
  split; [exact Hall|]. subst c.
  pose proof (trigger_calls_all_in_order bot (py "message") [] [failing; counting])
    as T.
  cbv zeta in T. destruct T as (_ & H & _).
  destruct (H Hall) as (Ho & Hc & He & _).
  split; [exact Ho|]. split; [exact Hc|]. rewrite He. by vm_compute.
Defined.

(** ** [_send] *)

Lemma send_cases message c :
  _send message c = MkRun (Ok tt) c []
  ∨ (∃ e, _send message c = MkRun (Raise e) c [])
  ∨ (∃ d w, _send message c = MkRun (Ok tt) (set_writer w c) [Transmit d]).
Proof.
  unfold _send. rewrite run_bind. simpl.
  destruct (writer c) as [credit|]; [|by left].
  rewrite run_bind. simpl.
  destruct (Codec.encode (message ++ crlf)) as [d|e]; simpl; [|right; left; eauto].
  destruct credit as [[|n]|]; simpl.
  - right; left; eauto.
  - right; right; eauto.
  - right; right. exists d, (writer c). by destruct c.
Qed.

(** ** The fields of a line *)

Lemma splitn_not_nil sep n s : Str.splitn sep n s ≠ [].
Proof. destruct n; simpl; [done|]. by destruct (Str.find sep s). Qed.

Lemma acting_nick_ok source : ∃ n, acting_nick source = Ok n.
Proof.
  unfold acting_nick. destruct (Str.contains _ _); [|eauto].
  unfold Str.split. pose proof (splitn_not_nil (py "!") (length source) source).
  destruct (Str.splitn _ _ _); [done|simpl; eauto].
Qed.

Lemma index_last_split sep s : ∃ x, index_last (Str.split sep s) = Ok x.
Proof.
  unfold index_last, Str.split.
  pose proof (splitn_not_nil sep (length s) s) as Hn.
  destruct (last (Str.splitn sep (length s) s)) eqn:E; [eauto|].
  by apply last_None in E.
Qed.

(** ** Messages carry no signature *)

Lemma messages_trigger event args c :
  messages (eff (_trigger event args c)) =
  args ≫= (fun a => match a with AMsg m => [m] | _ => [] end).
Proof.
  rewrite trigger_run. cbn [eff]. unfold messages.
  change (Dispatch event args :: ?t) with ([Dispatch event args] ++ t).
  rewrite dispatched_app, dispatched_handled. simpl. by rewrite !app_nil_r.
Qed.

Lemma on_command_messages nick_ command params c m :
  In m (messages (eff (on_command nick_ command params c))) →
  Message.signature m = None.
Proof.
  unfold on_command.
  destruct (Str.eqb command (py "PRIVMSG")).
  { destruct (Str.partition _ _) as [[target ?] content].
    destruct (soul_metadata content) as [sid content'].
    rewrite messages_trigger. simpl. intros [<-|[]]. reflexivity. }
  destruct (Str.eqb command (py "JOIN")).
  { rewrite run_bind. destruct (index_last_split (py " :") params) as [ch ->].
    own_nick_branch nick_ c;
      rewrite ?messages_app, messages_trigger; simpl; tauto. }
  destruct (Str.eqb command (py "PART")).
  { rewrite run_bind. destruct (index0 (Str.split_ws params)) as [ch|e].
    2:{ simpl. tauto. }
    own_nick_branch nick_ c;
      rewrite ?messages_app, messages_trigger; simpl; tauto. }
  destruct (Str.eqb command (py "QUIT")).
  { rewrite messages_trigger. simpl. tauto. }
  simpl. tauto.
Qed.

(** C10. Every [Message] that parsing a line hands to the handlers has
    no signature, so [is_verified] is false for it, whatever the line
    carries. *)
Theorem parsed_message_never_verified (c : AgentClient) (line : str) (m : Message.t) :
  In m (messages (eff (_parse_message line c))) →
  Message.signature m = None ∧ Message.is_verified m = false.
Proof.
  intros Hin.
  assert (Message.signature m = None) as Hs.
  { revert Hin. unfold _parse_message.
    destruct (Str.startswith (py "PING") line).
    { destruct (send_cases (py "PONG " ++ drop 5 line) c) as [->|[[e ->]|(d & w & ->)]];
        simpl; tauto. }
    destruct (Str.startswith (py ":") line); [|simpl; tauto].
    destruct (Str.splitn _ _ _) as [|source [|command rest]]; try (simpl; tauto).
    rewrite run_bind. destruct (acting_nick_ok source) as [n ->].
    cbn [lift out st eff app].
    apply on_command_messages. }
  split; [done|]. unfold Message.is_verified. rewrite Hs.
  rewrite (bool_decide_eq_false_2 (None ≠ None)) by (intros H; by apply H).
  apply andb_false_r.
Qed.

Lemma parsed_message_never_verified_witness :
  In signed_message (messages (eff (_parse_message signed_line bot))) ∧
  Message.signature signed_message = None ∧
  Message.is_verified signed_message = false.
Proof.
  assert (In signed_message (messages (eff (_parse_message signed_line bot)))) as H
    by (vm_compute; left; reflexivity).
  split; [exact H|].
  exact (parsed_message_never_verified bot signed_line signed_message H).
Defined.

(** ** Lines with a source and a command *)

Lemma parse_fields line source command rest n c :
  Str.startswith (py "PING") line = false →
  Str.startswith (py ":") line = true →
  Str.splitn (py " ") 2 (drop 1 line) = source :: command :: rest →
  acting_nick source = Ok n →
  _parse_message line c =
  on_command n command (match rest with p :: _ => p | [] => [] end) c.
Proof.
  intros Hping Hcolon Hparts Hnick. unfold _parse_message.
  rewrite Hping, Hcolon, Hparts, run_bind, Hnick.
  cbn [lift out st eff app]. apply run_eta.
Qed.

Lemma eqb_refl s : Str.eqb s s = true.
Proof. by apply bool_decide_eq_true_2. Qed.

Lemma on_command_privmsg n params c :
  on_command n (py "PRIVMSG") params c =
  let content := (Str.partition (py " :") params).2 in
  _trigger (py "message")
    [AMsg (Message.Make (Str.partition (py " :") params).1.1 n
             (soul_metadata content).2 (soul_metadata content).1 None)] c.
Proof.
  unfold on_command. rewrite eqb_refl.
  destruct (Str.partition _ _) as [[target ?] content]. simpl.
  by destruct (soul_metadata content).
Qed.

(** C5. The line of the scenario gives one [message] event, whose
    record has channel [#general], nick [Alice], soul id [deadbeef] and
    content [hello  world], with the two spaces that were around the
    tag.  The parser raises nothing of its own: the run ends as the
    calls of the [message] handlers end. *)
Theorem parse_privmsg_with_soul_tag (c : AgentClient) :
  let r := _parse_message
    (py ":Alice!u@h PRIVMSG #general :hello [Soul:deadbeef] world") c in
  let m := Message.Make (py "#general") (py "Alice") (py "hello  world")
             (Some (py "deadbeef")) None in
  out r = escaping [AMsg m] (handlers_for (py "message") c) ∧
  dispatched (eff r) = [(py "message", [AMsg m])] ∧
  messages (eff r) = [m].
Proof.
  intros r m. subst r.
  rewrite (parse_fields _ (py "Alice!u@h") (py "PRIVMSG")
             [py "#general :hello [Soul:deadbeef] world"] (py "Alice"))
    by (vm_compute; reflexivity).
  rewrite on_command_privmsg.
  replace (Str.partition (py " :") (py "#general :hello [Soul:deadbeef] world"))
    with (py "#general", py " :", py "hello [Soul:deadbeef] world")
    by (vm_compute; reflexivity).
  cbn [fst snd].
  replace (soul_metadata (py "hello [Soul:deadbeef] world"))
    with (Some (py "deadbeef"), py "hello  world") by (vm_compute; reflexivity).
  cbn [fst snd]. fold m.
  split; [by rewrite trigger_run|].
  split; [|by rewrite messages_trigger].
  rewrite trigger_run. cbn [eff].
  change (Dispatch ?e ?a :: ?t) with ([Dispatch e a] ++ t).
  by rewrite dispatched_app, dispatched_handled.
Qed.

(** ** PING *)

Lemma send_can_write message data c :
  can_write c = true →
  Codec.encode (message ++ crlf) = Ok data →
  _send message c = MkRun (Ok tt) (after_write c) [Transmit data].
Proof.
  unfold can_write, after_write, _send. intros Hw He.
  rewrite run_bind. cbn [get out st eff].
  destruct (writer c) as [[[|n]|]|]; try discriminate;
    rewrite run_bind, He; reflexivity.
Qed.

Lemma parse_ping payload data c :
  can_write c = true →
  Codec.encode (py "PONG " ++ payload ++ crlf) = Ok data →
  _parse_message (py "PING" ++ 32 :: payload) c =
  MkRun (Ok tt) (after_write c) [Transmit data].
Proof.
  intros Hw He. unfold _parse_message.
  replace (Str.startswith (py "PING") (py "PING" ++ 32 :: payload)) with true
    by reflexivity.
  change (drop 5 (py "PING" ++ 32 :: payload)) with payload.
  apply send_can_write; [done|by rewrite <- app_assoc].
Qed.

(** C4, as the claim has it: the answer to [PING :abc123] is not
    [PONG abc123]; the colon is part of what is echoed. *)
Lemma ping_reply_keeps_colon :
  written (eff (_parse_message (py "PING :abc123") bot)) = [py "PONG :abc123" ++ crlf] ∧
  written (eff (_parse_message (py "PING :abc123") bot)) ≠ [py "PONG abc123" ++ crlf].
Proof. split; [by vm_compute|]. vm_compute. discriminate. Qed.

(** C4, amended. A connected client whose transport takes the write
    answers the line [PING :abc123] with [PONG :abc123], and this write
    comes before every effect of the lines that follow. *)
Theorem ping_answered_before_next_line (c : AgentClient) (pending : list Recv) :
  connected c = true →
  can_write c = true →
  let c' := after_write (set_reader (Some pending) c) in
  read_loop (RecvLine (py "PING :abc123" ++ crlf) :: pending) c =
  MkRun (out (read_loop pending c')) (st (read_loop pending c'))
        (Transmit (py "PONG :abc123" ++ crlf) :: eff (read_loop pending c')).
Proof.
  intros Hc Hw c'. cbn [read_loop]. rewrite run_bind. cbn [get out st eff].
  rewrite Hc. cbn [negb]. rewrite run_bind. cbn [modify out st eff].
  replace (py "PING :abc123" ++ crlf) with (80 :: (tl (py "PING :abc123" ++ crlf)))
    by reflexivity.
  cbv iota beta.
  replace (Str.strip (80 :: tl (py "PING :abc123" ++ crlf)))
    with (py "PING" ++ 32 :: py ":abc123") by (vm_compute; reflexivity).
  rewrite run_bind. unfold try_except. rewrite run_bind.
  rewrite (parse_ping (py ":abc123") (py "PONG :abc123" ++ crlf))
    by (done || by vm_compute).
  cbn [out st eff mret M_ret app]. fold c'. reflexivity.
Qed.

Lemma ping_answered_before_next_line_witness :
  connected bot = true ∧ can_write bot = true ∧
  written (eff (read_loop [RecvLine (py "PING :abc123" ++ crlf);
                           RecvLine (py "PING :next" ++ crlf)] bot))
  = [py "PONG :abc123" ++ crlf; py "PONG :next" ++ crlf].
Proof.
  split; [reflexivity|]. split; [reflexivity|].
  rewrite (ping_answered_before_next_line bot
             [RecvLine (py "PING :next" ++ crlf)] eq_refl eq_refl).
  vm_compute. reflexivity.
Defined.

(** ** Cutting a line at its spaces *)

Lemma find_None_cons sub x s :
  Str.find sub (x :: s) = None →
  Str.startswith sub (x :: s) = false ∧ Str.find sub s = None.
Proof.
  cbn [Str.find]. destruct (Str.startswith sub (x :: s)); [done|].
  destruct (Str.find sub s); [done|]. by split.
Qed.

Lemma contains_false sub s : Str.contains sub s = false ↔ Str.find sub s = None.
Proof. unfold Str.contains. destruct (Str.find sub s); split; congruence. Qed.

Lemma find_single x a b :
  Str.contains [x] a = false → Str.find [x] (a ++ x :: b) = Some (length a).
Proof.
  rewrite contains_false. induction a as [|y a IH]; intros Hn.
  - simpl. by rewrite N.eqb_refl.
  - apply find_None_cons in Hn as [Hs Hn].
    cbn [app Str.find]. cbn [Str.startswith] in Hs |- *.
    rewrite andb_true_r in Hs. rewrite Hs. cbn [andb].
    rewrite (IH Hn). reflexivity.
Qed.

Lemma find_single_none x a : Str.contains [x] a = false → Str.find [x] a = None.
Proof. by rewrite contains_false. Qed.

Lemma partition_absent sep s :
  Str.contains sep s = false → Str.partition sep s = (s, [], []).
Proof. rewrite contains_false. unfold Str.partition. by intros ->. Qed.

Lemma splitn_privmsg source params :
  Str.contains (py " ") source = false →
  Str.splitn (py " ") 2 (drop 1 (privmsg_line source params)) =
  source :: py "PRIVMSG" :: match params with Some p => [p] | None => [] end.
Proof.
  intros Hs. unfold privmsg_line. change (drop 1 (py ":" ++ ?l)) with l.
  change (py " PRIVMSG" ++ ?l) with (32 :: py "PRIVMSG" ++ l).
  cbn [Str.splitn]. change (py " ") with [32] in *.
  rewrite (find_single 32 source _ Hs).
  rewrite take_app_length.
  rewrite (cons_middle 32 source), app_assoc.
  rewrite drop_app_length' by (by rewrite length_app).
  destruct params as [p|].
  - change (py "PRIVMSG" ++ [32] ++ p) with (py "PRIVMSG" ++ 32 :: p).
    rewrite (find_single 32 (py "PRIVMSG") p) by reflexivity.
    rewrite take_app_length.
    rewrite (cons_middle 32 (py "PRIVMSG")), app_assoc.
    by rewrite drop_app_length' by (by rewrite length_app).
  - rewrite app_nil_r. reflexivity.
Qed.

(** C7, as the claim has it: without the separator the message is
    addressed to the whole parameter text, not to its first token. *)
Lemma privmsg_without_separator_keeps_all_params :
  messages (eff (_parse_message bare_privmsg bot))
    = [Message.Make bare_params (py "Alice") [] None None] ∧
  index0 (Str.split_ws bare_params) = Ok (py "#general") ∧
  ¬ (∃ m, messages (eff (_parse_message bare_privmsg bot)) = [m] ∧
          Ok (Message.channel m) = index0 (Str.split_ws bare_params)).
Proof.
  split; [by vm_compute|]. split; [by vm_compute|].
  intros (m & Hm & Hc). vm_compute in Hm. injection Hm as <-.
  vm_compute in Hc. discriminate.
Qed.

(** C7, amended. A PRIVMSG line whose parameters hold no [ :] is not
    dropped: it gives one [message] event, with empty content, no soul
    id, and the whole parameter text as its channel.  The parser raises
    nothing of its own: the run ends as the calls of the [message]
    handlers end. *)
Theorem privmsg_without_separator (c : AgentClient) (source : str)
    (params : option str) :
  Str.contains (py " ") source = false →
  Str.contains (py " :") (default [] params) = false →
  let r := _parse_message (privmsg_line source params) c in
  ∃ n, acting_nick source = Ok n ∧
       out r = escaping [AMsg (Message.Make (default [] params) n [] None None)]
                 (handlers_for (py "message") c) ∧
       messages (eff r) = [Message.Make (default [] params) n [] None None] ∧
       dispatched (eff r) =
         [(py "message", [AMsg (Message.Make (default [] params) n [] None None)])].
Proof.
  intros Hs Hp r. destruct (acting_nick_ok source) as [n Hn]. exists n.
  split; [done|]. subst r.
  rewrite (parse_fields _ source (py "PRIVMSG")
             (match params with Some p => [p] | None => [] end) n);
    [|done|done|by apply splitn_privmsg|done].
  rewrite on_command_privmsg.
  replace (match match params with Some p => [p] | None => [] end with
           | [] => [] | p :: _ => p end) with (default [] params)
    by (by destruct params).
  rewrite (partition_absent _ _ Hp). cbn [fst snd].
  change (soul_metadata []) with (@None str, @nil N). cbn [fst snd].
  split; [by rewrite trigger_run|]. split; [by rewrite messages_trigger|].
  rewrite trigger_run. cbn [eff].
  change (Dispatch ?e ?a :: ?t) with ([Dispatch e a] ++ t).
  by rewrite dispatched_app, dispatched_handled.
Qed.

Lemma privmsg_without_separator_witness :
  Str.contains (py " ") (py "Alice!u@h") = false ∧
  Str.contains (py " :") (py "#general hello") = false ∧
  ∃ n, acting_nick (py "Alice!u@h") = Ok n ∧
       out (_parse_message (privmsg_line (py "Alice!u@h") (Some (py "#general hello"))) bot)
         = escaping [AMsg (Message.Make (py "#general hello") n [] None None)]
             (handlers_for (py "message") bot) ∧
       messages (eff (_parse_message (privmsg_line (py "Alice!u@h") (Some (py "#general hello"))) bot))
         = [Message.Make (py "#general hello") n [] None None] ∧
       dispatched (eff (_parse_message (privmsg_line (py "Alice!u@h") (Some (py "#general hello"))) bot))
         = [(py "message", [AMsg (Message.Make (py "#general hello") n [] None None)])].
Proof.
  split; [reflexivity|]. split; [reflexivity|].
  exact (privmsg_without_separator bot (py "Alice!u@h") (Some (py "#general hello"))
           eq_refl eq_refl).
Defined.

(** ** The soul tag *)

Lemma contains_single_cons x y a :
  Str.contains [x] (y :: a) = false → (x =? y) = false ∧ Str.contains [x] a = false.
Proof.
  rewrite !contains_false. intros H. apply find_None_cons in H as [Hs Hn].
  cbn [Str.startswith] in Hs. rewrite andb_true_r in Hs. by split.
Qed.

Lemma startswith_app p s : Str.startswith p (p ++ s) = true.
Proof. induction p as [|x p IH]; [done|]. simpl. by rewrite N.eqb_refl. Qed.

Lemma find_unfold p s :
  Str.find p s =
  if Str.startswith p s then Some 0%nat
  else match s with [] => None | _ :: s' => S <$> Str.find p s' end.
Proof. by destruct s. Qed.

Lemma find_after_no_space sep a b :
  Str.contains [32] a = false →
  Str.find (32 :: sep) (a ++ (32 :: sep) ++ b) = Some (length a).
Proof.
  induction a as [|y a IH]; intros Hn.
  - rewrite app_nil_l, find_unfold. by rewrite (startswith_app (32 :: sep) b).
  - apply contains_single_cons in Hn as [Hy Hn].
    rewrite <- app_comm_cons, find_unfold. cbn [Str.startswith].
    rewrite Hy. cbn [andb]. by rewrite (IH Hn).
Qed.

Lemma span_id_tag sid rest :
  Str.contains (py "]") sid = false →
  Re.span_id (sid ++ Re.RBRACKET :: rest) = (sid, Re.RBRACKET :: rest).
Proof.
  change (py "]") with [Re.RBRACKET].
  induction sid as [|y sid IH]; intros Hn.
  - reflexivity.
  - apply contains_single_cons in Hn as [Hy Hn].
    cbn [app Re.span_id]. rewrite N.eqb_sym, Hy. by rewrite (IH Hn).
Qed.

Lemma match_here_tag sid rest :
  sid ≠ [] →
  Str.contains (py "]") sid = false →
  Re.match_here (py "[Soul:" ++ sid ++ py "]" ++ rest)
  = Some (sid, (6 + length sid + 1)%nat).
Proof.
  intros Hne Hn. unfold Re.match_here.
  rewrite startswith_app.
  change (drop 6 (py "[Soul:" ++ ?l)) with l.
  change (py "]" ++ rest) with (Re.RBRACKET :: rest).
  rewrite (span_id_tag sid rest Hn). by destruct sid.
Qed.

Lemma sub_from_skip k a b : length a = k → Re.sub_from k (a ++ b) = Re.sub_from 0 b.
Proof.
  revert k. induction a as [|x a IH]; intros k Hk; simpl in Hk; subst k; [done|].
  cbn [app length Re.sub_from]. by apply IH.
Qed.

Lemma search_None_cons x s :
  Re.search (x :: s) = None → Re.match_here (x :: s) = None ∧ Re.search s = None.
Proof.
  cbn [Re.search]. destruct (Re.match_here (x :: s)) as [[g n]|]; [done|]. by split.
Qed.

Lemma sub_no_tag s : Re.search s = None → Re.sub s = s.
Proof.
  unfold Re.sub. induction s as [|x s IH]; intros Hn; [done|].
  apply search_None_cons in Hn as [Hm Hn].
  cbn [Re.sub_from]. rewrite Hm. by rewrite (IH Hn).
Qed.

Lemma sub_tag sid rest :
  sid ≠ [] →
  Str.contains (py "]") sid = false →
  Re.search rest = None →
  Re.sub (py "[Soul:" ++ sid ++ py "]" ++ rest) = rest.
Proof.
  intros Hne Hn Hrest. unfold Re.sub.
  pose proof (match_here_tag sid rest Hne Hn) as Hm.
  change (py "[Soul:" ++ ?l) with (91 :: py "Soul:" ++ l) in *.
  cbn [Re.sub_from]. rewrite Hm.
  replace (py "Soul:" ++ sid ++ py "]" ++ rest)
    with ((py "Soul:" ++ sid ++ py "]") ++ rest) by (by rewrite <- !app_assoc).
  rewrite sub_from_skip.
  - by apply sub_no_tag.
  - rewrite !length_app. simpl. lia.
Qed.

Lemma search_tag sid rest :
  sid ≠ [] →
  Str.contains (py "]") sid = false →
  Re.search (py "[Soul:" ++ sid ++ py "]" ++ rest) = Some sid.
Proof.
  intros Hne Hn. pose proof (match_here_tag sid rest Hne Hn) as Hm.
  change (py "[Soul:" ++ ?l) with (91 :: py "Soul:" ++ l) in *.
  cbn [Re.search]. by rewrite Hm.
Qed.

(** ** [strip] *)

Lemma lstrip_app_nonspace x c y :
  Str.isspace c = false → Str.lstrip (x ++ c :: y) = Str.lstrip x ++ c :: y.
Proof.
  intros Hc. induction x as [|a x IH]; cbn [app Str.lstrip].
  - by rewrite Hc.
  - by destruct (Str.isspace a).
Qed.

Lemma rstrip_snoc_nonspace x c :
  Str.isspace c = false → Str.rstrip (x ++ [c]) = x ++ [c].
Proof.
  intros Hc. unfold Str.rstrip. rewrite reverse_snoc. cbn [Str.lstrip].
  rewrite Hc. by rewrite reverse_cons, reverse_involutive.
Qed.

Lemma strip_signed_rest text sig :
  Str.strip (py " " ++ text ++ py " [Sig:" ++ sig ++ py "...]")
  = Str.lstrip (text ++ py " ") ++ py "[Sig:" ++ sig ++ py "...]".
Proof.
  unfold Str.strip.
  change (py " " ++ ?l) with (32 :: l). cbn [Str.lstrip].
  change (Str.isspace 32) with true. cbv iota.
  change (py " [Sig:" ++ ?l) with (32 :: 91 :: py "Sig:" ++ l).
  rewrite (cons_middle 32 text), app_assoc.
  rewrite lstrip_app_nonspace by reflexivity.
  change (91 :: py "Sig:" ++ ?l) with (py "[Sig:" ++ l).
  change (py "...]") with (py "..." ++ [93]).
  rewrite !app_assoc. by apply rstrip_snoc_nonspace.
Qed.

Lemma soul_metadata_signed sid text sig :
  sid ≠ [] →
  Str.contains (py "]") sid = false →
  Re.search (py " " ++ text ++ py " [Sig:" ++ sig ++ py "...]") = None →
  soul_metadata (signed_body sid text sig)
  = (Some sid, Str.lstrip (text ++ py " ") ++ py "[Sig:" ++ sig ++ py "...]").
Proof.
  intros Hne Hn Hrest. unfold soul_metadata, signed_body.
  replace (Str.contains (py "[Soul:") _) with true.
  2:{ unfold Str.contains. by rewrite find_unfold, startswith_app. }
  change (py "] " ++ ?l) with (py "]" ++ py " " ++ l).
  rewrite search_tag, sub_tag by done.
  by rewrite strip_signed_rest.
Qed.

(** [say] with [sign=True] composes exactly such a body. *)
Lemma say_signed_body target message s signature c :
  soul c = Some s →
  Soul.sign s message = Ok signature →
  say true target message true c =
  MkRun (Ok tt) c
    [CreateTask (py "PRIVMSG " ++ target ++ py " :"
                 ++ signed_body (Soul.soul_id s) message (take 16 signature))].
Proof.
  intros Hs Hsig. unfold say. rewrite run_bind. cbn [get out st eff].
  rewrite Hs, run_bind, run_bind, Hsig. reflexivity.
Qed.

(** C6, as the claim has it: the annotation [[Sig:...]] that follows
    the soul tag is still in the content of the message. *)
Lemma signature_annotation_stays :
  messages (eff (_parse_message signed_line bot)) = [signed_message] ∧
  Str.contains (py "[Sig:") (Message.content signed_message) = true ∧
  ¬ (∃ m, messages (eff (_parse_message signed_line bot)) = [m] ∧
          Str.contains (py "[Sig:") (Message.content m) = false).
Proof.
  split; [by vm_compute|]. split; [by vm_compute|].
  intros (m & Hm & Hc). vm_compute in Hm. injection Hm as <-.
  vm_compute in Hc. discriminate.
Qed.

(** *** Soul tags in front of a text

    A text that ends with a closing bracket closes every soul tag that
    opens in it: what comes after it takes no part in the matches. *)

Lemma startswith_inv p s : Str.startswith p s = true → ∃ r, s = p ++ r.
Proof.
  revert s. induction p as [|a p IH]; intros s; [by exists s|].
  destruct s as [|b s]; [done|]. cbn [Str.startswith].
  intros [Hab Hp]%andb_true_iff. apply N.eqb_eq in Hab as ->.
  destruct (IH s Hp) as [r ->]. by exists r.
Qed.


Lemma startswith_app_inv p s t :
  Str.startswith p (s ++ t) = true →
  Str.startswith p s = true ∨ ∃ q, p = s ++ q.
Proof.
  revert s. induction p as [|a p IH]; intros s; [by left|].
  destruct s as [|b s]; [right; by eexists|].
  cbn [app Str.startswith]. intros [Hab Hp]%andb_true_iff.
  rewrite Hab. cbn [andb]. apply N.eqb_eq in Hab as ->.
  destruct (IH s Hp) as [H|[q ->]]; [by left|right; by exists q].
Qed.

Lemma span_id_app u t run x rest :
  Re.span_id u = (run, x :: rest) → Re.span_id (u ++ t) = (run, x :: rest ++ t).
Proof.
  revert run. induction u as [|c u IH]; intros run; [done|].
  cbn [app Re.span_id]. destruct (c =? Re.RBRACKET).
  - by intros [= <- <- <-].
  - destruct (Re.span_id u) as [run' rest'] eqn:E. intros [= <- ->].
    by rewrite (IH run' eq_refl).
Qed.

Lemma span_id_parts u run rest : Re.span_id u = (run, rest) → u = run ++ rest.
Proof.
  revert run. induction u as [|c u IH]; intros run; [by intros [= <- <-]|].
  cbn [Re.span_id]. destruct (c =? Re.RBRACKET); [by intros [= <- <-]|].
  destruct (Re.span_id u) as [run' rest'] eqn:E. intros [= <- <-].
  by rewrite (IH run' eq_refl) at 1.
Qed.

Lemma span_id_closed u :
  Re.RBRACKET ∈ u → ∃ run rest, Re.span_id u = (run, Re.RBRACKET :: rest).
Proof.
  induction u as [|c u IH]; [by intros ?%elem_of_nil|].
  cbn [Re.span_id]. destruct (c =? Re.RBRACKET) eqn:E.
  - apply N.eqb_eq in E as ->. eauto.
  - apply N.eqb_neq in E. intros [Heq|Hin]%elem_of_cons; [congruence|].
    destruct (IH Hin) as (run & rest & ->). eauto.
Qed.

Lemma match_here_open u :
  Re.match_here (py "[Soul:" ++ u) =
  let '(run, rest) := Re.span_id u in
  match run, rest with
  | _ :: _, _ :: _ => Some (run, (6 + length run + 1)%nat)
  | _, _ => None
  end.
Proof.
  unfold Re.match_here. rewrite startswith_app.
  by change (drop 6 (py "[Soul:" ++ u)) with u.
Qed.

Lemma match_here_app s t g n :
  Re.match_here s = Some (g, n) → Re.match_here (s ++ t) = Some (g, n).
Proof.
  unfold Re.match_here at 1.
  destruct (Str.startswith (py "[Soul:") s) eqn:Hs; [|done].
  apply startswith_inv in Hs as [u ->].
  change (drop 6 (py "[Soul:" ++ u)) with u.
  rewrite <- app_assoc, match_here_open.
  destruct (Re.span_id u) as [run rest] eqn:E.
  destruct run as [|y run]; [done|]. destruct rest as [|x rest]; [done|].
  intros [= <- <-]. by rewrite (span_id_app _ t _ _ _ E).
Qed.

Lemma match_here_bound s g n : Re.match_here s = Some (g, n) → (n ≤ length s)%nat.
Proof.
  unfold Re.match_here.
  destruct (Str.startswith (py "[Soul:") s) eqn:Hs; [|done].
  apply startswith_inv in Hs as [u ->].
  change (drop 6 (py "[Soul:" ++ u)) with u.
  destruct (Re.span_id u) as [run rest] eqn:E.
  destruct run as [|y run]; [done|]. destruct rest as [|x rest]; [done|].
  intros [= <- <-]. rewrite (span_id_parts _ _ _ E), !length_app.
  change (length (py "[Soul:")) with 6%nat. simpl. lia.
Qed.

Lemma no_bracket_in_open q : py "[Soul:" = q ++ [Re.RBRACKET] → False.
Proof.
  intros H. assert (last (py "[Soul:") = Some Re.RBRACKET) as Hl
    by (by rewrite H, last_snoc).
  vm_compute in Hl. discriminate.
Qed.

Lemma match_here_closed s t :
  last s = Some Re.RBRACKET → Re.match_here (s ++ t) = Re.match_here s.
Proof.
  intros Hl.
  destruct (Re.match_here s) as [[g n]|] eqn:Hm; [by apply match_here_app|].
  unfold Re.match_here in *.
  destruct (Str.startswith (py "[Soul:") (s ++ t)) eqn:Hst; [|done].
  apply startswith_app_inv in Hst as [Hs|[q Hq]].
  - rewrite Hs in Hm. apply startswith_inv in Hs as [u ->].
    rewrite <- app_assoc.
    change (drop 6 (py "[Soul:" ++ ?l)) with l in *.
    assert (Re.RBRACKET ∈ u) as Hin.
    { destruct u as [|x u] using rev_ind.
      - rewrite app_nil_r in Hl. vm_compute in Hl. discriminate.
      - rewrite app_assoc, last_snoc in Hl. injection Hl as ->.
        apply elem_of_app. right. by left. }
    destruct (span_id_closed u Hin) as (run & rest & E).
    rewrite E in Hm. rewrite (span_id_app _ t _ _ _ E).
    by destruct run.
  - exfalso. destruct s as [|x s] using rev_ind; [done|].
    rewrite last_snoc in Hl. injection Hl as ->.
    clear IHs. rewrite <- app_assoc in Hq.
    assert (Re.RBRACKET ∈ py "[Soul:") as Hin.
    { rewrite Hq. apply elem_of_app. right. by left. }
    apply list_elem_of_In in Hin. vm_compute in Hin. intuition discriminate.
Qed.

Lemma last_tail_closed (c : N) s :
  last (c :: s) = Some Re.RBRACKET → s = [] ∨ last s = Some Re.RBRACKET.
Proof. destruct s; [by left|by right]. Qed.

Lemma sub_from_closed t s k :
  s = [] ∨ last s = Some Re.RBRACKET →
  (k ≤ length s)%nat →
  Re.sub_from k (s ++ t) = Re.sub_from k s ++ Re.sub_from 0 t.
Proof.
  revert k. induction s as [|c s IH]; intros k Hl Hk.
  - simpl in Hk. by replace k with 0%nat by lia.
  - destruct Hl as [|Hl]; [done|].
    pose proof (last_tail_closed c s Hl) as Hs.
    cbn [app Re.sub_from]. destruct k as [|k].
    + change (c :: s ++ t) with ((c :: s) ++ t).
      rewrite (match_here_closed _ t Hl).
      destruct (Re.match_here (c :: s)) as [[g n]|] eqn:Hm.
      * apply match_here_bound in Hm. simpl in Hm. apply IH; [done|lia].
      * cbn [app]. f_equal. apply IH; [done|lia].
    + simpl in Hk. apply IH; [done|lia].
Qed.

Lemma sub_closed s t :
  last s = Some Re.RBRACKET → Re.sub (s ++ t) = Re.sub s ++ Re.sub t.
Proof. intros Hl. apply sub_from_closed; [by right|lia]. Qed.

Lemma search_closed s t g :
  last s = Some Re.RBRACKET → Re.search s = Some g → Re.search (s ++ t) = Some g.
Proof.
  induction s as [|c s IH]; [done|]. intros Hl.
  cbn [app Re.search]. change (c :: s ++ t) with ((c :: s) ++ t).
  rewrite (match_here_closed _ t Hl).
  destruct (Re.match_here (c :: s)) as [[g' n]|]; [done|].
  destruct (last_tail_closed c s Hl) as [->|Hs]; [done|]. by apply IH.
Qed.

Lemma search_contains s g : Re.search s = Some g → Str.contains (py "[Soul:") s = true.
Proof.
  unfold Str.contains. induction s as [|c s IH].
  - by vm_compute.
  - cbn [Re.search]. rewrite find_unfold.
    destruct (Re.match_here (c :: s)) as [[g' n]|] eqn:Hm.
    + unfold Re.match_here in Hm.
      by destruct (Str.startswith (py "[Soul:") (c :: s)).
    + intros H. specialize (IH H).
      destruct (Str.startswith (py "[Soul:") (c :: s)); [done|].
      by destruct (Str.find (py "[Soul:") s).
Qed.

(** A text that holds no [[Soul:] does not open one with the bracket
    that follows it. *)
Lemma startswith_open_straddle x pre rest :
  Str.startswith (py "[Soul:") (x :: pre) = false →
  Str.startswith (py "[Soul:") ((x :: pre) ++ 91 :: rest) = false.
Proof.
  change (py "[Soul:") with [91; 83; 111; 117; 108; 58].
  destruct pre as [|a [|b [|c [|d [|e pre]]]]]; cbn;
    rewrite ?andb_false_r; done.
Qed.

Lemma tag_after_plain pre sid rest :
  sid ≠ [] →
  Str.contains (py "]") sid = false →
  Str.contains (py "[Soul:") pre = false →
  Re.search (pre ++ py "[Soul:" ++ sid ++ py "]" ++ rest) = Some sid ∧
  Re.sub_from 0 (pre ++ py "[Soul:" ++ sid ++ py "]" ++ rest) = pre ++ Re.sub_from 0 rest.
Proof.
  intros Hne Hn. induction pre as [|x pre IH]; intros Hp.
  - split; [by apply search_tag|].
    pose proof (match_here_tag sid rest Hne Hn) as Hm.
    change (py "[Soul:" ++ ?l) with (91 :: py "Soul:" ++ l) in *.
    cbn [app Re.sub_from]. rewrite Hm.
    replace (py "Soul:" ++ sid ++ py "]" ++ rest)
      with ((py "Soul:" ++ sid ++ py "]") ++ rest) by (by rewrite <- !app_assoc).
    apply sub_from_skip. rewrite !length_app. simpl. lia.
  - apply contains_false, find_None_cons in Hp as [Hs Hp].
    apply contains_false in Hp. destruct (IH Hp) as [IH1 IH2].
    assert (Re.match_here ((x :: pre) ++ py "[Soul:" ++ sid ++ py "]" ++ rest) = None)
      as Hm.
    { unfold Re.match_here.
      change (py "[Soul:" ++ ?l) with (91 :: py "Soul:" ++ l).
      by rewrite (startswith_open_straddle x pre _ Hs). }
    split.
    + change ((x :: pre) ++ ?l) with (x :: pre ++ l) in *.
      cbn [Re.search]. by rewrite Hm.
    + change ((x :: pre) ++ ?l) with (x :: pre ++ l) in *.
      cbn [Re.sub_from]. rewrite Hm. cbn [app]. by rewrite IH2.
Qed.

Lemma search_tagged pre sid :
  sid ≠ [] →
  Str.contains (py "]") sid = false →
  ∃ g, Re.search (pre ++ py "[Soul:" ++ sid ++ py "]") = Some g.
Proof.
  intros Hne Hn. induction pre as [|x pre [g IH]].
  - exists sid. rewrite <- (app_nil_r (py "]")). by apply search_tag.
  - cbn [app Re.search].
    destruct (Re.match_here (x :: pre ++ py "[Soul:" ++ sid ++ py "]")) as [[g' n]|];
      eauto.
Qed.

Lemma strip_before_annotation x sig :
  Str.strip (x ++ py "[Sig:" ++ sig ++ py "...]")
  = Str.lstrip x ++ py "[Sig:" ++ sig ++ py "...]".
Proof.
  unfold Str.strip.
  change (py "[Sig:" ++ ?l) with (91 :: py "Sig:" ++ l).
  rewrite lstrip_app_nonspace by reflexivity.
  change (py "...]") with (py "..." ++ [93]).
  change (91 :: py "Sig:" ++ ?l) with ([91] ++ py "Sig:" ++ l).
  rewrite !app_assoc. by apply rstrip_snoc_nonspace.
Qed.

(** C6, amended. For a PRIVMSG whose content holds a soul tag and
    ends, after a text without further soul tag, with an annotation
    [[Sig:...]]: the message carries the id of the first soul tag, the
    soul tags are gone from its content, and the annotation stays at
    the end of the content.  When no [[Soul:] stands in front of the
    tag, the id is the one of the tag and the content is what was
    around the tag, without its leading whitespace. *)
Theorem soul_tag_removed_annotation_kept (c : AgentClient)
    (source target pre sid mid sig : str) :
  Str.contains (py " ") source = false →
  Str.contains (py " ") target = false →
  sid ≠ [] →
  Str.contains (py "]") sid = false →
  Re.search (mid ++ py "[Sig:" ++ sig ++ py "...]") = None →
  let tagged := pre ++ py "[Soul:" ++ sid ++ py "]" in
  let annotation := py "[Sig:" ++ sig ++ py "...]" in
  let line := privmsg_line source
                (Some (target ++ py " :" ++ tagged ++ mid ++ annotation)) in
  let r := _parse_message line c in
  ∃ n g, acting_nick source = Ok n ∧
         Re.search tagged = Some g ∧
         messages (eff r) =
           [Message.Make target n
              (Str.lstrip (Re.sub tagged ++ mid) ++ annotation) (Some g) None] ∧
         out r = escaping
                   [AMsg (Message.Make target n
                            (Str.lstrip (Re.sub tagged ++ mid) ++ annotation)
                            (Some g) None)]
                   (handlers_for (py "message") c) ∧
         (Str.contains (py "[Soul:") pre = false → g = sid ∧ Re.sub tagged = pre).
Proof.
  intros Hs Ht Hne Hn Hrest tagged annotation line r.
  destruct (acting_nick_ok source) as [n Hnick].
  destruct (search_tagged pre sid Hne Hn) as [g Hg]. fold tagged in Hg.
  exists n, g. split; [done|]. split; [done|].
  assert (last tagged = Some Re.RBRACKET) as Hl.
  { unfold tagged. change (py "]") with [Re.RBRACKET].
    by rewrite !app_assoc, last_snoc. }
  assert (soul_metadata (tagged ++ mid ++ annotation)
          = (Some g, Str.lstrip (Re.sub tagged ++ mid) ++ annotation)) as Hmeta.
  { unfold soul_metadata.
    rewrite (search_closed _ _ _ Hl Hg).
    rewrite (search_contains _ g (search_closed _ (mid ++ annotation) _ Hl Hg)).
    rewrite (sub_closed _ _ Hl). unfold annotation.
    rewrite (sub_no_tag _ Hrest).
    by rewrite app_assoc, strip_before_annotation. }
  subst r line.
  rewrite (parse_fields _ source (py "PRIVMSG")
             [target ++ py " :" ++ tagged ++ mid ++ annotation] n);
    [|done|done|by apply (splitn_privmsg source (Some _))|done].
  rewrite on_command_privmsg.
  assert (Str.partition (py " :") (target ++ py " :" ++ tagged ++ mid ++ annotation)
          = (target, py " :", tagged ++ mid ++ annotation)) as ->.
  { unfold Str.partition. change (py " :") with (32 :: py ":").
    change (py " ") with [32] in Ht.
    rewrite (find_after_no_space (py ":") target _ Ht).
    rewrite take_app_length. rewrite app_assoc.
    by rewrite drop_app_length' by (by rewrite length_app). }
  cbn [fst snd]. rewrite Hmeta. cbn [fst snd].
  split; [by rewrite messages_trigger|]. split; [by rewrite trigger_out|].
  intros Hp. unfold tagged in *.
  destruct (tag_after_plain pre sid [] Hne Hn Hp) as [H1 H2].
  rewrite !app_nil_r in H1, H2. unfold Re.sub.
  rewrite H1 in Hg. injection Hg as <-. split; [done|].
  rewrite H2. cbn [Re.sub_from]. by rewrite app_nil_r.
Qed.

Lemma soul_tag_removed_annotation_kept_witness :
  ∃ n g, acting_nick (py "Alice!u@h") = Ok n ∧
         Re.search (py "hello " ++ py "[Soul:" ++ py "deadbeef" ++ py "]") = Some g ∧
         messages (eff (_parse_message tagged_line bot)) =
           [Message.Make (py "#general") n
              (py "hello  world [Sig:0123456789abcdef...]") (Some g) None] ∧
         g = py "deadbeef".
Proof.
  assert (py "deadbeef" ≠ []) as Hne by discriminate.
  destruct (soul_tag_removed_annotation_kept bot (py "Alice!u@h") (py "#general")
              (py "hello ") (py "deadbeef") (py " world ") (py "0123456789abcdef")
              eq_refl eq_refl Hne eq_refl eq_refl)
    as (n & g & H1 & H2 & H3 & _ & H4).
  exists n, g. split; [exact H1|]. split; [exact H2|].
  destruct (H4 eq_refl) as [-> H5]. split; [|reflexivity].
  rewrite H5 in H3. exact H3.
Defined.

(** ** Channel membership *)









(** ** The read loop *)

(** One turn of the loop on a line that is not empty: the stripped
    line is parsed; the loop goes on after it, stops when the parser
    raised an instance of [Exception], and lets anything else out. *)
Lemma read_loop_line x text pending c :
  connected c = true →
  read_loop (RecvLine (x :: text) :: pending) c =
  let r := _parse_message (Str.strip (x :: text)) (set_reader (Some pending) c) in
  match out r with
  | Ok _ => after (eff r) (read_loop pending (st r))
  | Raise e =>
      if is_exception (cls e)
      then MkRun (Ok tt) (st r)
             (eff r ++ [Log ERROR (py "Message handling error: " ++ msg e)])
      else MkRun (Raise e) (st r) (eff r)
  end.
Proof.
  intros Hc. cbn [read_loop]. rewrite run_bind. cbn [get out st eff].
  rewrite Hc. cbn [negb]. rewrite run_bind. cbn [modify out st eff app].
  rewrite run_bind. unfold try_except. rewrite run_bind.
  destruct (out (_parse_message _ _)) as [[]|e]; cbn [out st eff mret M_ret].
  - by rewrite app_nil_r.
  - destruct (is_exception (cls e)); cbn [out st eff]; [|done].
    rewrite run_bind. cbn [emit out st eff mret M_ret]. by rewrite !app_nil_r.
Qed.

(** No instance of [Exception] leaves the read loop. *)
Lemma read_loop_raise pending c e :
  out (read_loop pending c) = Raise e → is_exception (cls e) = false.
Proof.
  revert c. induction pending as [|r pending IH]; intros c.
  { cbn [read_loop]. rewrite run_bind. cbn [get out st eff]. by destruct (connected c). }
  destruct (connected c) eqn:Hc.
  2:{ cbn [read_loop]. rewrite run_bind. cbn [get out st eff]. by rewrite Hc. }
  destruct r as [[|x text]| |e'].
  - cbn [read_loop]. rewrite run_bind. cbn [get out st eff]. by rewrite Hc.
  - rewrite (read_loop_line x text pending c Hc). cbv zeta.
    destruct (out (_parse_message _ _)) as [[]|e'']; [apply IH|].
    destruct (is_exception (cls e'')) eqn:E; [done|]. by intros [= <-].
  - cbn [read_loop]. rewrite run_bind. cbn [get out st eff]. by rewrite Hc.
  - cbn [read_loop]. rewrite run_bind. cbn [get out st eff]. rewrite Hc.
    cbn [negb]. rewrite run_bind. cbn [modify out st eff]. unfold try_except.
    cbn [raise out st eff].
    destruct (is_exception (cls e')) eqn:E; [done|]. by intros [= <-].
Qed.

(** [_handle_messages] lets no instance of [Exception] reach its
    caller, whatever arrives: an exception of the parser is caught by
    the loop, and one of a handler by [_trigger]. *)
Lemma handle_messages_raise c e :
  out (_handle_messages c) = Raise e → is_exception (cls e) = false.
Proof.
  unfold _handle_messages. rewrite run_bind. cbn [get out st eff].
  rewrite run_bind.
  destruct (out (match reader c with
                 | Some pending => read_loop pending
                 | None => mret tt
                 end c)) as [[]|e'] eqn:Hr.
  - rewrite run_bind. cbn [modify out st eff]. rewrite trigger_out.
    apply escaping_raise.
  - intros [= <-]. destruct (reader c); [by apply read_loop_raise in Hr|done].
Qed.

(** A line whose command is none of the four has no effect at all. *)
Lemma unknown_command_ignored n command params c :
  command ≠ py "PRIVMSG" → command ≠ py "JOIN" →
  command ≠ py "PART" → command ≠ py "QUIT" →
  on_command n command params c = MkRun (Ok tt) c [].
Proof.
  intros H1 H2 H3 H4. unfold on_command, Str.eqb.
  by rewrite !bool_decide_eq_false_2.
Qed.

(** Apart from a PING whose answer cannot be sent, the parser raises
    an instance of [Exception] on one kind of line only: a PART whose
    parameters hold no token. *)
Lemma parse_raises_only_on_bare_part line c e :
  Str.startswith (py "PING") line = false →
  out (_parse_message line c) = Raise e →
  is_exception (cls e) = true →
  ∃ source rest,
    Str.splitn (py " ") 2 (drop 1 line) = source :: py "PART" :: rest ∧
    Str.split_ws (match rest with p :: _ => p | [] => [] end) = [] ∧
    e = Exn IndexError (py "list index out of range").
Proof.
  assert (∀ event args c', out (_trigger event args c') = Raise e →
            is_exception (cls e) = true → False) as Htrig.
  { intros event args c' H He. rewrite trigger_out in H.
    apply escaping_raise in H. congruence. }
  intros Hping. unfold _parse_message. rewrite Hping.
  destruct (Str.startswith (py ":") line); [|done].
  destruct (Str.splitn _ _ _) as [|source [|command rest]] eqn:Hs; try done.
  rewrite run_bind. destruct (acting_nick_ok source) as [n ->].
  cbn [lift out st eff app]. unfold on_command.
  destruct (Str.eqb command (py "PRIVMSG")).
  { destruct (Str.partition _ _) as [[target ?] content].
    destruct (soul_metadata content). intros H He. by destruct (Htrig _ _ _ H He). }
  destruct (Str.eqb command (py "JOIN")).
  { destruct (index_last_split (py " :")
      (match rest with p :: _ => p | [] => [] end)) as [ch Hch].
    rewrite (bind_ok _ _ c ch c []) by (unfold lift; by rewrite Hch).
    rewrite (bind_ok _ _ c c c []) by done.
    destruct (Str.eqb n (nick c)).
    - rewrite (bind_ok _ _ c tt _ []) by done.
      intros H He. by destruct (Htrig _ _ _ H He).
    - rewrite (bind_ok _ _ c tt c []) by done.
      intros H He. by destruct (Htrig _ _ _ H He). }
  destruct (Str.eqb command (py "PART")) eqn:Hp.
  { apply bool_decide_eq_true_1 in Hp. subst command.
    destruct (Str.split_ws _) as [|ch tokens] eqn:Hw.
    - rewrite run_bind. cbn [index0 lift out st eff]. intros [= <-]. eauto.
    - rewrite (bind_ok _ _ c ch c []) by done.
      rewrite (bind_ok _ _ c c c []) by done.
      destruct (Str.eqb n (nick c)).
      + rewrite (bind_ok _ _ c tt _ []) by done.
        intros H He. by destruct (Htrig _ _ _ H He).
      + rewrite (bind_ok _ _ c tt c []) by done.
        intros H He. by destruct (Htrig _ _ _ H He). }
  destruct (Str.eqb command (py "QUIT")); [|done].
  intros H He. by destruct (Htrig _ _ _ H He).
Qed.

(** C3, at the failing input. A PART line without parameters makes the
    parser raise [IndexError]; the read loop logs it and stops: the
    client is disconnected, and the line that follows is never read or
    answered. *)
Theorem part_without_params_ends_loop :
  out (_parse_message (py ":Bot!u@h PART") bot)
    = Raise (Exn IndexError (py "list index out of range")) ∧
  out (_handle_messages (listening [part_line; later_line])) = Ok tt ∧
  eff (_handle_messages (listening [part_line; later_line]))
    = [Log ERROR (py "Message handling error: list index out of range");
       Dispatch (py "disconnect") []] ∧
  connected (st (_handle_messages (listening [part_line; later_line]))) = false ∧
  reader (st (_handle_messages (listening [part_line; later_line])))
    = Some [later_line] ∧
  written (eff (_handle_messages (listening [later_line])))
    = [py "PONG :later" ++ crlf].
Proof. by vm_compute. Qed.

(** ** [connect] *)

(** C2, at the failing input. With auto-reconnect enabled and a peer
    that closes right after a successful connect, [connect] returns
    after one attempt: no sleep, no second attempt, although a second
    peer was there to be reached. *)
Theorem no_reconnect_after_clean_close (fuel : nat) :
  let c := fresh_bot [Accepted closing_peer; Accepted closing_peer] in
  ∃ r, connect (S fuel) c = Some r ∧
       out r = Ok tt ∧
       eff r = [Open;
                Transmit (py "NICK Bot" ++ crlf);
                Transmit (py "USER Bot 0 * :Bot Agent" ++ crlf);
                Dispatch (py "connect") [];
                Dispatch (py "disconnect") []] ∧
       attempts (eff r) = 1%nat ∧
       slept (eff r) = [] ∧
       auto_reconnect (st r) = true ∧
       connected (st r) = false ∧
       net (st r) = [Accepted closing_peer].
Proof.
  intros c. cbn [connect].
  assert (out (connect_try c) = Ok tt) as Ho by (by vm_compute).
  rewrite Ho. clear Ho. eexists. split; [reflexivity|].
  vm_compute. repeat split.
Qed.

(** The other path: when the attempt itself fails, here at the first
    write, [connect] sleeps 5 and makes a second attempt. *)
Lemma reconnect_after_failed_attempt (fuel : nat) :
  let c := fresh_bot [Accepted vanishing_peer; Accepted closing_peer] in
  ∃ r, connect (S (S fuel)) c = Some r ∧
       out r = Ok tt ∧
       attempts (eff r) = 2%nat ∧
       slept (eff r) = [5].
Proof.
  intros c. cbn [connect].
  assert (connect_try c =
          MkRun (Raise (Exn OSError (py "Connection lost")))
                (st (connect_try c)) [Open]) as Ht by (by vm_compute).
  rewrite Ht. cbn [out st eff].
  set (c1 := st (connect_try c)).
  assert (out (connect_except (Exn OSError (py "Connection lost")) c1) = Ok true)
    as He by (by vm_compute).
  rewrite He.
  set (c2 := st (connect_except _ c1)).
  assert (out (connect_try c2) = Ok tt) as Ho by (by vm_compute).
  rewrite Ho. clear Ht He Ho. eexists. split; [reflexivity|].
  vm_compute. repeat split.
Qed.

(** ** [Soul.sign] and [Soul.verify] *)

Lemma be_bytes_byte n x : Forall (fun b => b < 256) (Sha256.be_bytes n x).
Proof.
  revert x. induction n as [|n IH]; intros x; cbn [Sha256.be_bytes]; [constructor|].
  apply Forall_app. split; [apply IH|]. constructor; [|constructor].
  change 0xFF with (N.ones 8). rewrite N.land_ones. by apply N.mod_lt.
Qed.

Lemma digest_bytes m : Forall (fun b => b < 256) (Sha256.digest m).
Proof.
  unfold Sha256.digest. generalize (foldl Sha256.compress Sha256.H0
    (Sha256.groups 64 (length (Sha256.pad m) / 64) (Sha256.pad m))).
  intros ws. induction ws as [|w ws IH]; [constructor|].
  cbn [mbind list_bind]. apply Forall_app. split; [apply be_bytes_byte|apply IH].
Qed.

Lemma hex_digit_ascii d : d < 16 → Sha256.hex_digit d < 128.
Proof. unfold Sha256.hex_digit. destruct (d <? 10) eqn:E; lia. Qed.

Lemma hex_ascii bs :
  Forall (fun b => b < 256) bs → Hmac.is_ascii (Sha256.hex bs) = true.
Proof.
  unfold Hmac.is_ascii, Sha256.hex. induction 1 as [|b bs Hb _ IH]; [done|].
  cbn [mbind list_bind app forallb]. rewrite IH, andb_true_r.
  apply andb_true_intro. split; apply N.ltb_lt, hex_digit_ascii.
  - rewrite N.shiftr_div_pow2. change (2 ^ 4) with 16.
    apply N.Div0.div_lt_upper_bound. lia.
  - change 0xF with (N.ones 4). rewrite N.land_ones. by apply N.mod_lt.
Qed.

Lemma sign_ascii s content signature :
  Soul.sign s content = Ok signature → Hmac.is_ascii signature = true.
Proof.
  unfold Soul.sign. destruct (Codec.encode (Soul.seed s)) as [key|]; [|done].
  destruct (Codec.encode content) as [m|]; [|done].
  intros [= <-]. apply hex_ascii, digest_bytes.
Qed.

(** When the content can be signed, [verify] says whether the given
    signature is the one [sign] computes. *)
Lemma verify_compares s content expected signature :
  Soul.sign s content = Ok expected →
  Hmac.is_ascii signature = true →
  Soul.verify s content signature = Ok (bool_decide (expected = signature)).
Proof.
  intros Hs Ha. unfold Soul.verify, Hmac.compare_digest.
  by rewrite Hs, (sign_ascii _ _ _ Hs), Ha.
Qed.

(** The first half of C1, for content that can be encoded. *)
Lemma verify_own_signature s content signature :
  Soul.sign s content = Ok signature →
  Soul.verify s content signature = Ok true.
Proof.
  intros Hs. rewrite (verify_compares _ _ _ _ Hs (sign_ascii _ _ _ Hs)).
  by rewrite bool_decide_eq_true_2.
Qed.

(** The second half of C1 at one input. *)
Example verify_rejects_other_content :
  Soul.sign soul_of_seed (py "hello" ++ py "x")
    = Ok (py "a37dbb520fe815592b16afca4650b7f2aea189907410fc1787cfdd5d4e6630a6") ∧
  Soul.verify soul_of_seed (py "hello")
    (py "a37dbb520fe815592b16afca4650b7f2aea189907410fc1787cfdd5d4e6630a6") = Ok false ∧
  Soul.verify soul_of_seed (py "hello")
    (py "b6009d9ad0e2bea423bca117ce71b7376ef182c9408c040dcb32e97a76b64109") = Ok true.
Proof. by vm_compute. Qed.

(** A lone surrogate cannot be encoded: [sign] raises. *)
Example sign_lone_surrogate :
  Soul.sign soul_of_seed [0xD800]
  = Raise (Exn UnicodeEncodeError (py "surrogates not allowed")).
Proof. by vm_compute. Qed.

(** ** After the handshake, no path leads back to [connect] *)

Lemma steady_handled event args hs : forallb steady (handled event args hs) = true.
Proof.
  induction hs as [|h hs IH]; [done|]. cbn [handled forallb steady].
  destruct (h_run h args) as [u|e]; [done|]. by destruct (is_exception (cls e)).
Qed.

Lemma steady_trigger event args c : forallb steady (eff (_trigger event args c)) = true.
Proof. rewrite trigger_run. cbn [eff forallb steady]. apply steady_handled. Qed.

Lemma steady_send message c : forallb steady (eff (_send message c)) = true.
Proof. by destruct (send_cases message c) as [->|[[e ->]|(d & w & ->)]]. Qed.

Lemma steady_on_command n command params c :
  forallb steady (eff (on_command n command params c)) = true.
Proof.
  unfold on_command.
  destruct (Str.eqb command (py "PRIVMSG")).
  { destruct (Str.partition _ _) as [[target ?] content].
    destruct (soul_metadata content). apply steady_trigger. }
  destruct (Str.eqb command (py "JOIN")).
  { rewrite run_bind. destruct (index_last _) as [ch|e]; [|done].
    own_nick_branch n c;
      apply steady_trigger. }
  destruct (Str.eqb command (py "PART")).
  { rewrite run_bind. destruct (index0 _) as [ch|e]; [|done].
    own_nick_branch n c;
      apply steady_trigger. }
  destruct (Str.eqb command (py "QUIT")); [apply steady_trigger|done].
Qed.

Lemma steady_parse line c : forallb steady (eff (_parse_message line c)) = true.
Proof.
  unfold _parse_message.
  destruct (Str.startswith (py "PING") line); [apply steady_send|].
  destruct (Str.startswith (py ":") line); [|done].
  destruct (Str.splitn _ _ _) as [|source [|command rest]]; try done.
  rewrite run_bind. destruct (acting_nick_ok source) as [n ->].
  cbn [lift out st eff app]. apply steady_on_command.
Qed.

Lemma steady_read_loop pending c : forallb steady (eff (read_loop pending c)) = true.
Proof.
  revert c. induction pending as [|r pending IH]; intros c.
  { cbn [read_loop]. rewrite run_bind. cbn [get out st eff]. by destruct (connected c). }
  destruct (connected c) eqn:Hc.
  2:{ cbn [read_loop]. rewrite run_bind. cbn [get out st eff]. by rewrite Hc. }
  destruct r as [[|x text]| |e].
  - cbn [read_loop]. rewrite run_bind. cbn [get out st eff]. by rewrite Hc.
  - rewrite (read_loop_line x text pending c Hc). cbv zeta.
    pose proof (steady_parse (Str.strip (x :: text)) (set_reader (Some pending) c)) as Hp.
    destruct (out (_parse_message _ _)) as [[]|e].
    + unfold after. cbn [eff]. rewrite forallb_app, Hp. apply IH.
    + destruct (is_exception (cls e)); cbn [eff]; [|done].
      by rewrite forallb_app, Hp.
  - cbn [read_loop]. rewrite run_bind. cbn [get out st eff]. by rewrite Hc.
  - cbn [read_loop]. rewrite run_bind. cbn [get out st eff]. rewrite Hc.
    cbn [negb]. rewrite run_bind. cbn [modify out st eff]. unfold try_except.
    cbn [raise out st eff]. by destruct (is_exception (cls e)).
Qed.

Lemma steady_handle_messages c : forallb steady (eff (_handle_messages c)) = true.
Proof.
  unfold _handle_messages. rewrite run_bind. cbn [get out st eff app].
  rewrite run_bind.
  assert (forallb steady (eff (match reader c with
                               | Some pending => read_loop pending
                               | None => mret tt
                               end c)) = true) as Hr
    by (destruct (reader c); [apply steady_read_loop|done]).
  destruct (out _) as [[]|e]; cbn [eff]; [|done].
  rewrite forallb_app, Hr. rewrite run_bind. cbn [modify out st eff app].
  apply steady_trigger.
Qed.

Lemma steady_attempts t : forallb steady t = true → attempts t = 0%nat ∧ slept t = [].
Proof.
  unfold attempts, slept. induction t as [|e t IH]; [done|].
  cbn [forallb]. intros [He Ht]%andb_true_iff. destruct (IH Ht) as [Ha Hs].
  destruct e; try discriminate; cbn [mbind list_bind app]; by rewrite ?Ha, ?Hs.
Qed.

(** Once the handshake went through, [connect] returns after this one
    attempt, whatever arrives on the stream and however it ends; the
    exception it may end with is no instance of [Exception]. *)
Lemma no_reconnect_after_handshake (fuel : nat) (lines : list Recv)
    (later : list Attempt) :
  let c := fresh_bot (Accepted {| incoming := lines; writes := None |} :: later) in
  ∃ r, connect (S fuel) c = Some r ∧
       attempts (eff r) = 1%nat ∧ slept (eff r) = [] ∧
       ∀ e, out r = Raise e → is_exception (cls e) = false.
Proof.
  intros c. cbn [connect].
  set (c1 := set_writer (Some None) (set_reader (Some lines) (set_net later c))).
  set (c' := set_connected true c1).
  assert (connect_try c =
          after [Open; Transmit (py "NICK Bot" ++ crlf);
                 Transmit (py "USER Bot 0 * :Bot Agent" ++ crlf);
                 Dispatch (py "connect") []] (_handle_messages c')) as ->.
  { unfold connect_try.
    rewrite (bind_ok _ _ c tt c1 [Open]) by (by vm_compute).
    rewrite (bind_ok _ _ c1 c1 c1 []) by done.
    rewrite (bind_ok _ _ c1 tt c1 [Transmit (py "NICK Bot" ++ crlf)])
      by (by vm_compute).
    rewrite (bind_ok _ _ c1 tt c1 [Transmit (py "USER Bot 0 * :Bot Agent" ++ crlf)])
      by (by vm_compute).
    rewrite (bind_ok _ _ c1 tt c1 []) by done.
    rewrite (bind_ok _ _ c1 tt c' []) by done.
    rewrite (bind_ok _ _ c' tt c' [Dispatch (py "connect") []]) by (by vm_compute).
    unfold after. by cbn [out st eff app]. }
  destruct (steady_attempts _ (steady_handle_messages c')) as [Ha Hs].
  assert (attempts (eff (after [Open; Transmit (py "NICK Bot" ++ crlf);
                                Transmit (py "USER Bot 0 * :Bot Agent" ++ crlf);
                                Dispatch (py "connect") []] (_handle_messages c')))
            = 1%nat ∧
          slept (eff (after [Open; Transmit (py "NICK Bot" ++ crlf);
                             Transmit (py "USER Bot 0 * :Bot Agent" ++ crlf);
                             Dispatch (py "connect") []] (_handle_messages c'))) = [])
    as [Ha' Hs'].
  { unfold after, attempts, slept in *. cbn [eff]. by rewrite !bind_app, Hs, length_app, Ha. }
  unfold after at 1. cbn [out].
  destruct (out (_handle_messages c')) as [[]|e] eqn:Ho.
  - eexists. split; [reflexivity|]. split_and!; [done..|].
    unfold after. cbn [out]. by rewrite Ho.
  - rewrite (handle_messages_raise _ _ Ho).
    eexists. split; [reflexivity|]. split_and!; [done..|].
    unfold after. cbn [out]. rewrite Ho. intros e' [= <-].
    by apply handle_messages_raise in Ho.
Qed.

(** * Further properties *)

(** ** Digests and signatures *)

Lemma round_length st kw : length (Sha256.round st kw) = length st.
Proof.
  unfold Sha256.round.
  destruct st as [|a [|b [|c [|d [|e [|f [|g [|h [|]]]]]]]]]; reflexivity.
Qed.

Lemma rounds_length kws st : length (foldl Sha256.round st kws) = length st.
Proof.
  revert st. induction kws as [|kw kws IH]; intros st; [done|].
  simpl. by rewrite IH, round_length.
Qed.

Lemma compress_length h block : length (Sha256.compress h block) = length h.
Proof.
  unfold Sha256.compress. rewrite length_zip_with, rounds_length. lia.
Qed.

Lemma compress_all_length blocks h :
  length (foldl Sha256.compress h blocks) = length h.
Proof.
  revert h. induction blocks as [|b blocks IH]; intros h; [done|].
  simpl. by rewrite IH, compress_length.
Qed.

Lemma be_bytes_length n x : length (Sha256.be_bytes n x) = n.
Proof.
  revert x. induction n as [|n IH]; intros x; [done|].
  cbn [Sha256.be_bytes]. rewrite length_app, IH. simpl. lia.
Qed.

Lemma digest_length m : length (Sha256.digest m) = 32%nat.
Proof.
  unfold Sha256.digest.
  pose proof (compress_all_length
    (Sha256.groups 64 (length (Sha256.pad m) / 64) (Sha256.pad m)) Sha256.H0) as Hl.
  change (length Sha256.H0) with 8%nat in Hl. revert Hl.
  generalize (foldl Sha256.compress Sha256.H0
    (Sha256.groups 64 (length (Sha256.pad m) / 64) (Sha256.pad m))).
  intros ws Hl.
  assert (∀ ws : list N, length (ws ≫= Sha256.be_bytes 4) = (4 * length ws)%nat) as H4.
  { clear. induction ws as [|w ws IH]; [done|].
    cbn [mbind list_bind]. change (length ((Sha256.be_bytes 4 w) ++ (ws ≫= Sha256.be_bytes 4))
      = (4 * length (w :: ws))%nat).
    rewrite length_app, be_bytes_length, IH. simpl. lia. }
  rewrite H4, Hl. reflexivity.
Qed.

Lemma hex_length bs : length (Sha256.hex bs) = (2 * length bs)%nat.
Proof.
  unfold Sha256.hex. induction bs as [|b bs IH]; [done|].
  change (length ([Sha256.hex_digit (N.shiftr b 4); Sha256.hex_digit (N.land b 15)]
                  ++ (bs ≫= λ b0, [Sha256.hex_digit (N.shiftr b0 4);
                                   Sha256.hex_digit (N.land b0 15)]))
          = (2 * length (b :: bs))%nat).
  rewrite length_app, IH. simpl. lia.
Qed.

Lemma hex_digit_is_hex d : d < 16 → is_hex_digit (Sha256.hex_digit d) = true.
Proof.
  intros Hd. unfold Sha256.hex_digit, is_hex_digit.
  destruct (d <? 10) eqn:E.
  - apply N.ltb_lt in E. apply orb_true_iff. left.
    apply andb_true_iff. split; apply N.leb_le; lia.
  - apply N.ltb_ge in E. apply orb_true_iff. right.
    apply andb_true_iff. split; apply N.leb_le; lia.
Qed.

Lemma hex_is_hex bs :
  Forall (fun b => b < 256) bs → forallb is_hex_digit (Sha256.hex bs) = true.
Proof.
  unfold Sha256.hex. induction 1 as [|b bs Hb _ IH]; [done|].
  cbn [mbind list_bind app forallb]. 
  change (forallb is_hex_digit
            ([Sha256.hex_digit (N.shiftr b 4); Sha256.hex_digit (N.land b 0xF)]
             ++ (bs ≫= λ b0, [Sha256.hex_digit (N.shiftr b0 4);
                              Sha256.hex_digit (N.land b0 0xF)])) = true).
  rewrite forallb_app, IH, andb_true_r. cbn [forallb]. rewrite andb_true_r.
  apply andb_true_intro. split; apply hex_digit_is_hex.
  - rewrite N.shiftr_div_pow2. change (2 ^ 4) with 16.
    apply N.Div0.div_lt_upper_bound. lia.
  - change 0xF with (N.ones 4). rewrite N.land_ones. by apply N.mod_lt.
Qed.

Lemma hexdigest_hex64 m : is_hex64 (Sha256.hexdigest m).
Proof.
  unfold Sha256.hexdigest. split.
  - by rewrite hex_length, digest_length.
  - apply hex_is_hex, digest_bytes.
Qed.

Lemma hmac_hex64 key m : is_hex64 (Hmac.hexdigest key m).
Proof.
  unfold Hmac.hexdigest, Hmac.digest. split.
  - by rewrite hex_length, digest_length.
  - apply hex_is_hex, digest_bytes.
Qed.

Lemma hex_digit_ascii_char c : is_hex_digit c = true → (c <? 128) = true.
Proof.
  unfold is_hex_digit. intros [H|H]%orb_true_iff; apply andb_true_iff in H as [_ H];
    apply N.leb_le in H; apply N.ltb_lt; lia.
Qed.

Lemma hex_is_ascii s : forallb is_hex_digit s = true → Hmac.is_ascii s = true.
Proof.
  unfold Hmac.is_ascii. induction s as [|c s IH]; [done|].
  cbn [forallb]. intros [Hc Hs]%andb_true_iff.
  by rewrite (hex_digit_ascii_char c Hc), (IH Hs).
Qed.

Lemma encode_ascii s : Hmac.is_ascii s = true → Codec.encode s = Ok s.
Proof.
  unfold Hmac.is_ascii. induction s as [|c s IH]; [done|].
  cbn [forallb]. intros [Hc Hs]%andb_true_iff.
  cbn [Codec.encode]. unfold Codec.encode_char.
  assert ((c <? 0x80) = true) as -> by exact Hc.
  by rewrite (IH Hs).
Qed.

Lemma encode_app a b :
  Codec.encode (a ++ b) =
  match Codec.encode a with
  | Ok x => match Codec.encode b with
            | Ok y => Ok (x ++ y)
            | Raise e => Raise e
            end
  | Raise e => Raise e
  end.
Proof.
  induction a as [|c a IH].
  - simpl. by destruct (Codec.encode b).
  - cbn [app Codec.encode]. destruct (Codec.encode_char c) as [bs|]; [|done].
    rewrite IH. destruct (Codec.encode a) as [x|]; [|done].
    destruct (Codec.encode b) as [y|]; [|done]. by rewrite app_assoc.
Qed.

Lemma is_ascii_app a b :
  Hmac.is_ascii (a ++ b) = Hmac.is_ascii a && Hmac.is_ascii b.
Proof. apply forallb_app. Qed.

Lemma sign_is_hex64_aux s content signature :
  Soul.sign s content = Ok signature → is_hex64 signature.
Proof.
  unfold Soul.sign. destruct (Codec.encode (Soul.seed s)) as [key|]; [|done].
  destruct (Codec.encode content) as [m|]; [|done].
  intros [= <-]. apply hmac_hex64.
Qed.

(** X1. A signature is 64 lower-case hexadecimal digits. *)
Theorem sign_is_hex64 (s : Soul.t) (content signature : str) :
  Soul.sign s content = Ok signature → is_hex64 signature.
Proof. apply sign_is_hex64_aux. Qed.

Lemma sign_is_hex64_witness :
  Soul.sign soul_of_seed (py "hello")
    = Ok (py "b6009d9ad0e2bea423bca117ce71b7376ef182c9408c040dcb32e97a76b64109") ∧
  is_hex64 (py "b6009d9ad0e2bea423bca117ce71b7376ef182c9408c040dcb32e97a76b64109").
Proof.
  assert (Soul.sign soul_of_seed (py "hello")
    = Ok (py "b6009d9ad0e2bea423bca117ce71b7376ef182c9408c040dcb32e97a76b64109")) as H
    by (by vm_compute).
  split; [exact H|]. exact (sign_is_hex64 _ _ _ H).
Defined.

(** X2. For content that can be signed, [verify] answers whether the
    given signature is the one [sign] computes, and raises [TypeError]
    when the given signature holds a character outside ASCII. *)
Theorem verify_decides (s : Soul.t) (content expected signature : str) :
  Soul.sign s content = Ok expected →
  Soul.verify s content signature =
  if Hmac.is_ascii signature then Ok (bool_decide (expected = signature))
  else Raise (Exn TypeError
         (py "comparing strings with non-ASCII characters is not supported")).
Proof.
  intros Hs. unfold Soul.verify, Hmac.compare_digest.
  rewrite Hs, (sign_ascii _ _ _ Hs). cbn [andb].
  by destruct (Hmac.is_ascii signature).
Qed.

Lemma verify_decides_witness :
  Soul.sign soul_of_seed (py "hello")
    = Ok (py "b6009d9ad0e2bea423bca117ce71b7376ef182c9408c040dcb32e97a76b64109") ∧
  Soul.verify soul_of_seed (py "hello") [233] =
    Raise (Exn TypeError
      (py "comparing strings with non-ASCII characters is not supported")).
Proof.
  assert (Soul.sign soul_of_seed (py "hello")
    = Ok (py "b6009d9ad0e2bea423bca117ce71b7376ef182c9408c040dcb32e97a76b64109")) as H
    by (by vm_compute).
  split; [exact H|]. exact (verify_decides soul_of_seed _ _ [233] H).
Defined.

(** ** [SoulAuth] *)

Lemma sha256_hex_ascii s h : SoulAuth.sha256_hex s = Ok h → is_hex64 h.
Proof.
  unfold SoulAuth.sha256_hex. destruct (Codec.encode s); [|done].
  intros [= <-]. apply hexdigest_hex64.
Qed.

Lemma sign_total s content key bs :
  Codec.encode (Soul.seed s) = Ok key →
  Codec.encode content = Ok bs →
  Soul.sign s content = Ok (Hmac.hexdigest key bs).
Proof. unfold Soul.sign. by intros -> ->. Qed.

Lemma from_seed_run seed agent_name paradigm mode :
  SoulAuth.from_seed seed agent_name paradigm mode =
  match Codec.encode seed with
  | Ok key => Ok (Soul.Make (Sha256.hexdigest (py "identity:" ++ key))
                    seed agent_name paradigm mode)
  | Raise e => Raise e
  end.
Proof.
  unfold SoulAuth.from_seed, SoulAuth.sha256_hex. rewrite encode_app.
  change (Codec.encode (py "identity:")) with (Ok (A:=list N) (py "identity:")).
  by destruct (Codec.encode seed).
Qed.

(** X3. [from_seed] fails exactly when the seed cannot be encoded.
    Otherwise it gives a soul with that seed (the empty seed included),
    an identifier of 64 hexadecimal digits, and the descriptive fields
    as given; this soul signs every content that can be encoded. *)
Theorem from_seed_succeeds_iff_seed_encodes (seed agent_name paradigm mode : str) :
  match Codec.encode seed with
  | Ok key =>
      ∃ sid, SoulAuth.from_seed seed agent_name paradigm mode
               = Ok (Soul.Make sid seed agent_name paradigm mode) ∧
             is_hex64 sid ∧
             ∀ content bs, Codec.encode content = Ok bs →
               Soul.sign (Soul.Make sid seed agent_name paradigm mode) content
               = Ok (Hmac.hexdigest key bs)
  | Raise e => SoulAuth.from_seed seed agent_name paradigm mode = Raise e
  end.
Proof.
  rewrite from_seed_run.
  destruct (Codec.encode seed) as [key|e] eqn:He; [|done].
  eexists. split; [reflexivity|]. split; [apply hexdigest_hex64|].
  intros content bs Hc. by apply sign_total.
Qed.

Lemma from_seed_succeeds_iff_seed_encodes_witness :
  ∃ sid, SoulAuth.from_seed (py "seed") [] [] []
           = Ok (Soul.Make sid (py "seed") [] [] []) ∧
         is_hex64 sid ∧
         Soul.sign (Soul.Make sid (py "seed") [] [] []) (py "hello")
         = Ok (py "b6009d9ad0e2bea423bca117ce71b7376ef182c9408c040dcb32e97a76b64109").
Proof.
  pose proof (from_seed_succeeds_iff_seed_encodes (py "seed") [] [] []) as H.
  change (Codec.encode (py "seed")) with (Ok (py "seed") : res (list N)) in H.
  cbv beta iota in H. destruct H as (sid & H1 & H2 & H3).
  exists sid. split; [exact H1|]. split; [exact H2|].
  rewrite (H3 (py "hello") (py "hello") eq_refl).
  vm_compute. reflexivity.
Defined.

(** X4. A soul that [from_imagony] returns has a seed and an identifier
    of 64 hexadecimal digits each, is the soul [from_seed] gives for
    that seed, and signs every content that can be encoded.  The mode
    takes no part in the identity: another mode gives the same seed and
    the same identifier. *)
Theorem from_imagony_soul (api_key agent_name paradigm mode : str) (s : Soul.t) :
  SoulAuth.from_imagony api_key agent_name paradigm mode = Ok s →
  is_hex64 (Soul.seed s) ∧ is_hex64 (Soul.soul_id s) ∧
  SoulAuth.from_seed (Soul.seed s) agent_name paradigm mode = Ok s ∧
  (∀ content bs, Codec.encode content = Ok bs →
     ∃ signature, Soul.sign s content = Ok signature) ∧
  (∀ mode', ∃ s', SoulAuth.from_imagony api_key agent_name paradigm mode' = Ok s' ∧
                  Soul.seed s' = Soul.seed s ∧ Soul.soul_id s' = Soul.soul_id s).
Proof.
  unfold SoulAuth.from_imagony.
  destruct (SoulAuth.sha256_hex _) as [seed|] eqn:Hseed; [|done].
  pose proof (sha256_hex_ascii _ _ Hseed) as Hhex.
  pose proof (encode_ascii seed (hex_is_ascii _ (proj2 Hhex))) as Henc.
  rewrite !from_seed_run, Henc. intros [= <-]. cbn [Soul.seed Soul.soul_id].
  rewrite ?Henc.
  split_and!; try done.
  - apply hexdigest_hex64.
  - intros content bs Hc. eexists. by apply sign_total.
  - intros mode'. eexists. split; [by rewrite from_seed_run, Henc|]. done.
Qed.

Lemma from_imagony_soul_witness :
  SoulAuth.from_imagony (py "img_test_key_12345") (py "Wilsond")
    (py "existentialist") (py "REAL") = Ok wilsond_soul ∧
  is_hex64 (Soul.seed wilsond_soul) ∧ is_hex64 (Soul.soul_id wilsond_soul).
Proof.
  assert (SoulAuth.from_imagony (py "img_test_key_12345") (py "Wilsond")
            (py "existentialist") (py "REAL") = Ok wilsond_soul) as H
    by (by vm_compute).
  split; [exact H|].
  destruct (from_imagony_soul _ _ _ _ _ H) as (H1 & H2 & _). by split.
Defined.

(** ** What computations keep and what they emit *)

Section Combinators.
Context {X : Type} (f : AgentClient -> X) (P : Effect -> bool).

Lemma keeps_ret {A} (a : A) : Keeps f (mret a : M A).
Proof. by intros c. Qed.

Lemma keeps_lift {A} (r : res A) : Keeps f (lift r).
Proof. by intros c. Qed.

Lemma keeps_raise {A} (e : exn) : Keeps f (raise e : M A).
Proof. by intros c. Qed.

Lemma keeps_get : Keeps f get.
Proof. by intros c. Qed.

Lemma keeps_emit e : Keeps f (emit e).
Proof. by intros c. Qed.

Lemma keeps_modify g : (∀ c, f (g c) = f c) → Keeps f (modify g).
Proof. intros Hg c. apply Hg. Qed.

Lemma keeps_bind {A B} (m : M A) (k : A -> M B) :
  Keeps f m → (∀ a, Keeps f (k a)) → Keeps f (m ≫= k).
Proof.
  intros Hm Hk c. rewrite run_bind.
  destruct (out (m c)); cbn [st]; [by rewrite Hk, Hm|apply Hm].
Qed.

Lemma keeps_try {A} (m : M A) (h : exn -> M A) :
  Keeps f m → (∀ e, Keeps f (h e)) → Keeps f (try_except m h).
Proof.
  intros Hm Hh c. unfold try_except.
  destruct (out (m c)) as [a|e]; cbn [st]; [apply Hm|].
  destruct (is_exception (cls e)); cbn [st]; [by rewrite Hh, Hm|apply Hm].
Qed.

Lemma keeps_trigger event args : Keeps f (_trigger event args).
Proof. intros c. by rewrite trigger_run. Qed.

Lemma emits_ret {A} (a : A) : Emits P (mret a : M A).
Proof. by intros c. Qed.

Lemma emits_lift {A} (r : res A) : Emits P (lift r).
Proof. by intros c. Qed.

Lemma emits_raise {A} (e : exn) : Emits P (raise e : M A).
Proof. by intros c. Qed.

Lemma emits_get : Emits P get.
Proof. by intros c. Qed.

Lemma emits_modify g : Emits P (modify g).
Proof. by intros c. Qed.

Lemma emits_emit e : P e = true → Emits P (emit e).
Proof. intros He c. cbn. by rewrite He. Qed.

Lemma emits_bind {A B} (m : M A) (k : A -> M B) :
  Emits P m → (∀ a, Emits P (k a)) → Emits P (m ≫= k).
Proof.
  intros Hm Hk c. rewrite run_bind.
  destruct (out (m c)); cbn [eff]; [by rewrite forallb_app, Hm, Hk|apply Hm].
Qed.

Lemma emits_try {A} (m : M A) (h : exn -> M A) :
  Emits P m → (∀ e, Emits P (h e)) → Emits P (try_except m h).
Proof.
  intros Hm Hh c. unfold try_except.
  destruct (out (m c)) as [a|e]; cbn [eff]; [apply Hm|].
  destruct (is_exception (cls e)); cbn [eff]; [by rewrite forallb_app, Hm, Hh|apply Hm].
Qed.
End Combinators.

(** One step of a proof that a computation keeps a reading or emits
    only some effects: follow the structure of the computation. *)
Ltac keeps_step :=
  first
    [ apply keeps_ret | apply keeps_get | apply keeps_lift | apply keeps_raise
    | apply keeps_emit | apply keeps_trigger
    | apply keeps_modify; reflexivity
    | apply keeps_bind; [|intro]
    | apply keeps_try; [|intro]
    | match goal with
      | |- Keeps _ (match ?x with _ => _ end) => destruct x
      end ].

Ltac emits_step :=
  first
    [ apply emits_ret | apply emits_get | apply emits_lift | apply emits_raise
    | apply emits_modify
    | apply emits_emit; reflexivity
    | apply emits_bind; [|intro]
    | apply emits_try; [|intro]
    | match goal with
      | |- Emits _ (match ?x with _ => _ end) => destruct x
      end ].

Section Frames.
Context {X : Type} (f : AgentClient -> X).
Hypothesis f_writer : ∀ w c, f (set_writer w c) = f c.
Hypothesis f_channels : ∀ s c, f (set_channels s c) = f c.

Lemma keeps_send message : Keeps f (_send message).
Proof.
  intros c.
  destruct (send_cases message c) as [->|[[e ->]|(d & w & ->)]];
    cbn [st]; by rewrite ?f_writer.
Qed.

Lemma keeps_on_command n command params : Keeps f (on_command n command params).
Proof.
  unfold on_command. repeat keeps_step; apply keeps_modify; intros; apply f_channels.
Qed.

Lemma keeps_parse line : Keeps f (_parse_message line).
Proof.
  unfold _parse_message.
  repeat first [apply keeps_send | apply keeps_on_command | keeps_step].
Qed.

Hypothesis f_reader : ∀ r c, f (set_reader r c) = f c.

Lemma keeps_read_loop pending : Keeps f (read_loop pending).
Proof.
  induction pending as [|r pending IH]; cbn [read_loop];
    repeat first [apply keeps_parse | exact IH | keeps_step
                 | apply keeps_modify; intros; apply f_reader].
Qed.

Hypothesis f_connected : ∀ b c, f (set_connected b c) = f c.

Lemma keeps_handle_messages : Keeps f _handle_messages.
Proof.
  unfold _handle_messages.
  repeat first [apply keeps_read_loop | keeps_step
               | apply keeps_modify; intros; apply f_connected].
Qed.

Lemma keeps_authenticate s : Keeps f (_authenticate_soul s).
Proof.
  unfold _authenticate_soul. repeat first [apply keeps_send | keeps_step].
Qed.
End Frames.

Section Emitted.
Context (P : Effect -> bool).
Hypothesis P_log : ∀ l t, P (Log l t) = true.
Hypothesis P_dispatch : ∀ ev args, P (Dispatch ev args) = true.
Hypothesis P_call : ∀ h args, P (Call h args) = true.
Hypothesis P_send : ∀ message, Emits P (_send message).

Lemma emits_handled event args hs : forallb P (handled event args hs) = true.
Proof.
  induction hs as [|h hs IH]; [done|]. cbn [handled forallb].
  rewrite P_call. destruct (h_run h args) as [u|e]; [done|].
  destruct (is_exception (cls e)); cbn [forallb]; by rewrite ?P_log.
Qed.

Lemma emits_trigger event args : Emits P (_trigger event args).
Proof.
  intros c. rewrite trigger_run. cbn [eff forallb].
  by rewrite P_dispatch, emits_handled.
Qed.

Lemma emits_on_command n command params : Emits P (on_command n command params).
Proof. unfold on_command. repeat first [apply emits_trigger | emits_step]. Qed.

Lemma emits_parse line : Emits P (_parse_message line).
Proof.
  unfold _parse_message.
  repeat first [apply P_send | apply emits_on_command | emits_step].
Qed.

Lemma emits_read_loop pending : Emits P (read_loop pending).
Proof.
  induction pending as [|r pending IH]; cbn [read_loop];
    repeat first [apply emits_parse | exact IH | emits_step
                 | apply emits_emit; apply P_log].
Qed.

Lemma emits_handle_messages : Emits P _handle_messages.
Proof.
  unfold _handle_messages.
  repeat first [apply emits_read_loop | apply emits_trigger | emits_step].
Qed.

Lemma emits_authenticate s : Emits P (_authenticate_soul s).
Proof.
  unfold _authenticate_soul. repeat first [apply P_send | emits_step].
Qed.
End Emitted.

(** ** The parser *)

Lemma settings_set_writer w c : settings (set_writer w c) = settings c.
Proof. reflexivity. Qed.
Lemma settings_set_channels s c : settings (set_channels s c) = settings c.
Proof. reflexivity. Qed.
Lemma settings_set_reader r c : settings (set_reader r c) = settings c.
Proof. reflexivity. Qed.
Lemma settings_set_connected b c : settings (set_connected b c) = settings c.
Proof. reflexivity. Qed.

Lemma dispatched_trigger event args c :
  dispatched (eff (_trigger event args c)) = [(event, args)].
Proof.
  rewrite trigger_run. cbn [eff].
  change (Dispatch event args :: ?t) with ([Dispatch event args] ++ t).
  by rewrite dispatched_app, dispatched_handled.
Qed.

Lemma on_command_one_event n command params c :
  (length (dispatched (eff (on_command n command params c))) ≤ 1)%nat.
Proof.
  unfold on_command.
  destruct (Str.eqb command (py "PRIVMSG")).
  { destruct (Str.partition _ _) as [[target ?] content].
    destruct (soul_metadata content). by rewrite dispatched_trigger. }
  destruct (Str.eqb command (py "JOIN")).
  { rewrite run_bind. destruct (index_last _) as [ch|e]; [|simpl; lia].
    own_nick_branch n c; by rewrite dispatched_trigger. }
  destruct (Str.eqb command (py "PART")).
  { rewrite run_bind. destruct (index0 _) as [ch|e]; [|simpl; lia].
    own_nick_branch n c; by rewrite dispatched_trigger. }
  destruct (Str.eqb command (py "QUIT")); [by rewrite dispatched_trigger|simpl; lia].
Qed.

(** X5. Parsing a line, whatever it is, leaves the nick, the soul, the
    auto-reconnect flag, the handler registry, the connected flag and
    the reader as they were (only the membership and the credit of the
    writer can change), and dispatches at most one event. *)
Theorem parse_keeps_settings_one_event (line : str) (c : AgentClient) :
  settings (st (_parse_message line c)) = settings c ∧
  connected (st (_parse_message line c)) = connected c ∧
  reader (st (_parse_message line c)) = reader c ∧
  (length (dispatched (eff (_parse_message line c))) ≤ 1)%nat.
Proof.
  split_and!.
  - by apply (keeps_parse settings).
  - by apply (keeps_parse connected).
  - by apply (keeps_parse reader).
  - unfold _parse_message.
    destruct (Str.startswith (py "PING") line).
    { destruct (send_cases (py "PONG " ++ drop 5 line) c)
        as [->|[[e ->]|(d & w & ->)]]; simpl; lia. }
    destruct (Str.startswith (py ":") line); [|simpl; lia].
    destruct (Str.splitn _ _ _) as [|source [|command rest]]; try (simpl; lia).
    rewrite run_bind. destruct (acting_nick_ok source) as [n ->].
    cbn [lift out st eff app]. apply on_command_one_event.
Qed.

(** X6. Every line that starts with [PING] is answered with [PONG] and
    the rest of the line from its sixth character on, and has no other
    effect; a bare [PING] is answered with an empty payload. *)
Theorem ping_echoes_rest_of_line (line data : str) (c : AgentClient) :
  Str.startswith (py "PING") line = true →
  can_write c = true →
  Codec.encode (drop 5 line) = Ok data →
  _parse_message line c =
  MkRun (Ok tt) (after_write c) [Transmit (py "PONG " ++ data ++ crlf)].
Proof.
  intros Hp Hw He. unfold _parse_message. rewrite Hp.
  apply send_can_write; [done|].
  rewrite !encode_app, He.
  change (Codec.encode (py "PONG ")) with (Ok (A:=list N) (py "PONG ")).
  change (Codec.encode crlf) with (Ok (A:=list N) crlf).
  cbv beta iota. by rewrite <- app_assoc.
Qed.

Lemma ping_echoes_rest_of_line_witness :
  Str.startswith (py "PING") (py "PING") = true ∧ can_write bot = true ∧
  _parse_message (py "PING") bot =
  MkRun (Ok tt) (after_write bot) [Transmit (py "PONG " ++ [] ++ crlf)].
Proof.
  split; [reflexivity|]. split; [reflexivity|].
  exact (ping_echoes_rest_of_line (py "PING") [] bot eq_refl eq_refl eq_refl).
Defined.

(** ** The read loop *)

(** *** What can get out of the parser and of the loop *)

Lemma encode_raise s e : Codec.encode s = Raise e → is_exception (cls e) = true.
Proof.
  induction s as [|x s IH]; [done|]. cbn [Codec.encode].
  destruct (Codec.encode_char x); [|by intros [= <-]].
  destruct (Codec.encode s); [done|]. intros [= <-]. by apply IH.
Qed.

Lemma send_raise message c e :
  out (_send message c) = Raise e → is_exception (cls e) = true.
Proof.
  unfold _send. rewrite run_bind. cbn [get out st eff].
  destruct (writer c) as [credit|]; [|done].
  rewrite run_bind. cbn [lift out st eff].
  destruct (Codec.encode (message ++ crlf)) as [d|e'] eqn:He;
    [|intros [= <-]; by apply encode_raise in He].
  destruct credit as [[|n]|]; cbn; [|done..]. by intros [= <-].
Qed.

Lemma polite_escaping event args c :
  polite_handlers c → escaping args (handlers_for event c) = Ok tt.
Proof.
  intros Hp. apply escaping_contained, contained_all.
  intros h e Hin He. specialize (Hp event h Hin args).
  unfold contained in Hp. by rewrite He in Hp.
Qed.

Lemma polite_handlers_same c c' :
  _handlers c' = _handlers c → polite_handlers c → polite_handlers c'.
Proof. intros Hh Hp event h. unfold handlers_for. rewrite Hh. apply Hp. Qed.



(** An exception out of the parser that is no instance of [Exception]
    was raised by a handler. *)
Lemma parse_raise_from_handler line c e :
  out (_parse_message line c) = Raise e →
  is_exception (cls e) = false →
  ∃ event args, escaping args (handlers_for event c) = Raise e.
Proof.
  unfold _parse_message.
  destruct (Str.startswith (py "PING") line).
  { intros H%send_raise. congruence. }
  destruct (Str.startswith (py ":") line); [|done].
  destruct (Str.splitn _ _ _) as [|source [|command rest]] eqn:Hs; try done.
  rewrite run_bind. destruct (acting_nick_ok source) as [n ->].
  cbn [lift out st eff app]. unfold on_command.
  destruct (Str.eqb command (py "PRIVMSG")).
  { destruct (Str.partition _ _) as [[target ?] content].
    destruct (soul_metadata content). rewrite trigger_out. eauto. }
  destruct (Str.eqb command (py "JOIN")).
  { rewrite run_bind.
    destruct (index_last_split (py " :") (match rest with p :: _ => p | [] => [] end))
      as [ch ->].
    cbn [lift out st eff]. rewrite (bind_ok _ _ c c c []) by done.
    destruct (Str.eqb n (nick c)).
    - rewrite (bind_ok _ _ c tt _ []) by done. unfold after. cbn [out].
      rewrite trigger_out. unfold handlers_for. cbn [_handlers set_channels]. eauto.
    - rewrite (bind_ok _ _ c tt c []) by done. unfold after. cbn [out].
      rewrite trigger_out. eauto. }
  destruct (Str.eqb command (py "PART")).
  { rewrite run_bind. unfold index0.
    destruct (Str.split_ws _) as [|ch tokens]; [by intros [= <-]|].
    cbn [lift out st eff]. rewrite (bind_ok _ _ c c c []) by done.
    destruct (Str.eqb n (nick c)).
    - rewrite (bind_ok _ _ c tt _ []) by done. unfold after. cbn [out].
      rewrite trigger_out. unfold handlers_for. cbn [_handlers set_channels]. eauto.
    - rewrite (bind_ok _ _ c tt c []) by done. unfold after. cbn [out].
      rewrite trigger_out. eauto. }
  destruct (Str.eqb command (py "QUIT")); [|done].
  rewrite trigger_out. eauto.
Qed.

Lemma read_loop_quiet pending c :
  polite_handlers c →
  forallb quiet_recv pending = true →
  out (read_loop pending c) = Ok tt.
Proof.
  revert c. induction pending as [|r pending IH]; intros c Hp Hq.
  { cbn [read_loop]. rewrite run_bind. cbn [get out st eff]. by destruct (connected c). }
  cbn [forallb] in Hq. apply andb_true_iff in Hq as [Hr Hq].
  destruct (connected c) eqn:Hc.
  2:{ cbn [read_loop]. rewrite run_bind. cbn [get out st eff]. by rewrite Hc. }
  destruct r as [[|x text]| |e].
  - cbn [read_loop]. rewrite run_bind. cbn [get out st eff]. by rewrite Hc.
  - rewrite (read_loop_line x text pending c Hc). cbv zeta.
    set (c1 := set_reader (Some pending) c).
    assert (polite_handlers c1) as Hp1 by (by apply (polite_handlers_same c)).
    destruct (out (_parse_message _ c1)) as [[]|e] eqn:Ho.
    + unfold after. cbn [out]. apply IH; [|done].
      apply (polite_handlers_same c1); [|done].
      by apply (keeps_parse _handlers).
    + destruct (is_exception (cls e)) eqn:E; [done|].
      destruct (parse_raise_from_handler _ _ _ Ho E) as (event & args & He).
      by rewrite polite_escaping in He.
  - cbn [read_loop]. rewrite run_bind. cbn [get out st eff]. by rewrite Hc.
  - cbn [read_loop]. rewrite run_bind. cbn [get out st eff]. rewrite Hc.
    cbn [negb]. rewrite run_bind. cbn [modify out st eff]. unfold try_except.
    cbn [raise out st eff quiet_recv] in *. by rewrite Hr.
Qed.



(** X8. A line that is blank once stripped does not end the read loop:
    the loop goes on with the lines behind it, with no effect of its
    own.  The empty bytes of a closed stream do end it: what is behind
    stays unread. *)
Theorem blank_line_goes_on_eof_stops (c : AgentClient) (text : str)
    (pending : list Recv) :
  connected c = true →
  text ≠ [] →
  Str.strip text = [] →
  read_loop (RecvLine text :: pending) c
    = read_loop pending (set_reader (Some pending) c) ∧
  read_loop (RecvEOF :: pending) c
    = MkRun (Ok tt) (set_reader (Some pending) c) [] ∧
  read_loop (RecvLine [] :: pending) c
    = MkRun (Ok tt) (set_reader (Some pending) c) [].
Proof.
  intros Hc Ht Hs. split_and!.
  - cbn [read_loop]. rewrite (bind_ok _ _ c c c []) by done.
    rewrite Hc. cbn [negb].
    rewrite (bind_ok _ _ c tt (set_reader (Some pending) c) []) by done.
    destruct text as [|x text]; [done|]. rewrite Hs.
    rewrite (bind_ok _ _ _ true (set_reader (Some pending) c) []) by done.
    unfold after. cbn [app]. by rewrite !run_eta.
  - cbn [read_loop]. rewrite run_bind. cbn [get out st eff]. by rewrite Hc.
  - cbn [read_loop]. rewrite run_bind. cbn [get out st eff]. by rewrite Hc.
Qed.

Lemma blank_line_goes_on_eof_stops_witness :
  connected bot = true ∧ crlf ≠ [] ∧ Str.strip crlf = [] ∧
  read_loop [RecvLine crlf; later_line] bot
    = read_loop [later_line] (set_reader (Some [later_line]) bot).
Proof.
  split; [reflexivity|]. split; [discriminate|]. split; [reflexivity|].
  refine (proj1 (blank_line_goes_on_eof_stops bot crlf [later_line] eq_refl _ eq_refl)).
  discriminate.
Defined.

(** ** Lines with three fields *)

Lemma splitn_fields source command params :
  Str.contains (py " ") source = false →
  Str.contains (py " ") command = false →
  Str.splitn (py " ") 2 (source ++ py " " ++ command ++ py " " ++ params)
  = [source; command; params].
Proof.
  intros Hs Hc. change (py " ") with [32] in *. cbn [Str.splitn].
  change ([32] ++ ?l) with (32 :: l).
  rewrite (find_single 32 source _ Hs), take_app_length.
  rewrite (cons_middle 32 source), app_assoc.
  rewrite drop_app_length' by (by rewrite length_app).
  change ([32] ++ params) with (32 :: params).
  rewrite (find_single 32 command _ Hc), take_app_length.
  rewrite (cons_middle 32 command), app_assoc.
  by rewrite drop_app_length' by (by rewrite length_app).
Qed.

Lemma parse_relayed source command params n c :
  Str.contains (py " ") source = false →
  Str.contains (py " ") command = false →
  acting_nick source = Ok n →
  _parse_message (relayed source (command ++ py " " ++ params)) c
  = on_command n command params c.
Proof.
  intros Hs Hc Hn.
  rewrite (parse_fields _ source command [params] n); try done.
  change (drop 1 (relayed source ?l)) with (source ++ py " " ++ l).
  by apply splitn_fields.
Qed.

Lemma no_space_find sep s : no_space s = true → Str.find (32 :: sep) s = None.
Proof.
  unfold no_space. induction s as [|y s IH]; [done|].
  cbn [forallb]. intros [Hy Hs]%andb_true_iff.
  rewrite find_unfold. cbn [Str.startswith].
  assert ((32 =? y) = false) as ->.
  { apply N.eqb_neq. intros <-. by vm_compute in Hy. }
  cbn [andb]. by rewrite (IH Hs).
Qed.

Lemma no_space_contains sep s : no_space s = true → Str.contains (32 :: sep) s = false.
Proof. intros H. apply contains_false. by apply no_space_find. Qed.

Lemma split_absent sep s : Str.contains sep s = false → Str.split sep s = [s].
Proof.
  rewrite contains_false. unfold Str.split. intros H.
  destruct (length s); cbn [Str.splitn]; by rewrite ?H.
Qed.

Lemma partition_target target body :
  Str.contains (py " ") target = false →
  Str.partition (py " :") (target ++ py " :" ++ body) = (target, py " :", body).
Proof.
  intros Ht. unfold Str.partition. change (py " :") with (32 :: py ":").
  change (py " ") with [32] in Ht.
  rewrite (find_after_no_space (py ":") target _ Ht).
  rewrite take_app_length, app_assoc.
  by rewrite drop_app_length' by (by rewrite length_app).
Qed.

Lemma split_ws_from_some acc ch rest :
  no_space ch = true →
  Str.split_ws_from (Some acc) (ch ++ 32 :: rest)
  = (reverse acc ++ ch) :: Str.split_ws_from None rest.
Proof.
  unfold no_space. revert acc. induction ch as [|y ch IH]; intros acc.
  - intros _. cbn [app Str.split_ws_from]. change (Str.isspace 32) with true.
    cbv iota. by rewrite app_nil_r.
  - cbn [forallb]. intros [Hy Hs]%andb_true_iff. apply negb_true_iff in Hy.
    cbn [app Str.split_ws_from]. rewrite Hy. cbn [default].
    rewrite (IH _ Hs), reverse_cons, <- app_assoc. reflexivity.
Qed.

Lemma split_ws_from_end acc ch :
  no_space ch = true →
  Str.split_ws_from (Some acc) ch = [reverse acc ++ ch].
Proof.
  unfold no_space. revert acc. induction ch as [|y ch IH]; intros acc.
  - intros _. cbn. by rewrite app_nil_r.
  - cbn [forallb]. intros [Hy Hs]%andb_true_iff. apply negb_true_iff in Hy.
    cbn [Str.split_ws_from]. rewrite Hy. cbn [default].
    rewrite (IH _ Hs), reverse_cons, <- app_assoc. reflexivity.
Qed.

Lemma first_token ch rest :
  ch ≠ [] → no_space ch = true →
  index0 (Str.split_ws ch) = Ok ch ∧
  index0 (Str.split_ws (ch ++ 32 :: rest)) = Ok ch.
Proof.
  intros Hne Hs. destruct ch as [|y ch]; [done|].
  unfold no_space in Hs. cbn [forallb] in Hs.
  apply andb_true_iff in Hs as [Hy Hs]. apply negb_true_iff in Hy.
  unfold Str.split_ws. cbn [app Str.split_ws_from]. rewrite Hy. cbn [default].
  rewrite (split_ws_from_end [y] ch Hs), (split_ws_from_some [y] ch rest Hs).
  by split.
Qed.

Lemma on_command_join_run n params c :
  Str.contains (py " :") params = false →
  on_command n (py "JOIN") params c =
  MkRun (escaping [AStr params; AStr n] (handlers_for (py "join") c))
    (if Str.eqb n (nick c) then set_channels ({[params]} ∪ channels c) c else c)
    (Dispatch (py "join") [AStr params; AStr n]
     :: handled (py "join") [AStr params; AStr n] (handlers_for (py "join") c)).
Proof.
  intros Hp. unfold on_command.
  change (Str.eqb (py "JOIN") (py "PRIVMSG")) with false.
  change (Str.eqb (py "JOIN") (py "JOIN")) with true. cbv iota.
  rewrite (split_absent _ _ Hp).
  rewrite (bind_ok _ _ c params c []) by done.
  rewrite (bind_ok _ _ c c c []) by done.
  destruct (Str.eqb n (nick c)).
  - rewrite (bind_ok _ _ c tt (set_channels ({[params]} ∪ channels c) c) []) by done.
    by rewrite trigger_run.
  - rewrite (bind_ok _ _ c tt c []) by done. by rewrite trigger_run.
Qed.

Lemma on_command_part_run n params ch c :
  index0 (Str.split_ws params) = Ok ch →
  on_command n (py "PART") params c =
  MkRun (escaping [AStr ch; AStr n] (handlers_for (py "part") c))
    (if Str.eqb n (nick c) then set_channels (channels c ∖ {[ch]}) c else c)
    (Dispatch (py "part") [AStr ch; AStr n]
     :: handled (py "part") [AStr ch; AStr n] (handlers_for (py "part") c)).
Proof.
  intros Hp. unfold on_command.
  change (Str.eqb (py "PART") (py "PRIVMSG")) with false.
  change (Str.eqb (py "PART") (py "JOIN")) with false.
  change (Str.eqb (py "PART") (py "PART")) with true. cbv iota.
  rewrite (bind_ok _ _ c ch c []) by (unfold lift; by rewrite Hp).
  rewrite (bind_ok _ _ c c c []) by done.
  destruct (Str.eqb n (nick c)).
  - rewrite (bind_ok _ _ c tt (set_channels (channels c ∖ {[ch]}) c) []) by done.
    by rewrite trigger_run.
  - rewrite (bind_ok _ _ c tt c []) by done. by rewrite trigger_run.
Qed.

(** ** A line on its way through the read loop

    The loop strips what it has read before it parses it: the line
    terminator goes, and so does whitespace at the end of the text. *)














(** ** Outgoing commands and their echo *)

Lemma join_task channel c :
  join true channel c = MkRun (Ok tt) c [CreateTask (py "JOIN " ++ channel)].
Proof. reflexivity. Qed.






(** X11. For the client's own nick, a relayed JOIN followed by a
    relayed PART of the same channel leaves the channel out of the
    membership and the other channels as they were; a relayed PART of a
    channel that is not in the membership changes nothing and raises
    nothing of its own: the parser ends as the calls of the [part]
    handlers end. *)
Theorem own_join_then_part (c : AgentClient) (source channel : str) :
  Str.contains (py " ") source = false →
  acting_nick source = Ok (nick c) →
  channel ≠ [] →
  no_space channel = true →
  let joined := st (_parse_message (relayed source (py "JOIN " ++ channel)) c) in
  let parted := _parse_message (relayed source (py "PART " ++ channel)) joined in
  channels joined = {[channel]} ∪ channels c ∧
  out parted = escaping [AStr channel; AStr (nick c)] (handlers_for (py "part") c) ∧
  channels (st parted) = channels c ∖ {[channel]} ∧
  (channel ∉ channels c →
   out (_parse_message (relayed source (py "PART " ++ channel)) c)
     = escaping [AStr channel; AStr (nick c)] (handlers_for (py "part") c) ∧
   channels (st (_parse_message (relayed source (py "PART " ++ channel)) c))
   = channels c).
Proof.
  intros Hs Hn Hne Hc joined parted. subst parted joined.
  change (py "JOIN " ++ channel) with (py "JOIN" ++ py " " ++ channel).
  change (py "PART " ++ channel) with (py "PART" ++ py " " ++ channel).
  rewrite (parse_relayed source (py "JOIN") channel (nick c)) by done.
  rewrite on_command_join_run by (by apply (no_space_contains (py ":"))).
  rewrite eqb_refl. cbn [st].
  rewrite (parse_relayed source (py "PART") channel (nick c)) by done.
  rewrite (on_command_part_run _ _ channel)
    by apply (proj1 (first_token channel [] Hne Hc)).
  cbn [nick set_channels channels out st]. rewrite eqb_refl. cbn [channels].
  split; [done|]. split; [done|]. split.
  - unfold set_channels. cbn [channels].
    apply set_eq. intros x. rewrite !elem_of_difference, elem_of_union. tauto.
  - intros Hnot.
    rewrite (parse_relayed source (py "PART") channel (nick c)) by done.
    rewrite (on_command_part_run _ _ channel)
      by apply (proj1 (first_token channel [] Hne Hc)).
    rewrite eqb_refl. cbn [out st]. split; [done|].
    unfold set_channels. cbn [channels]. apply set_eq. intros x. rewrite elem_of_difference, elem_of_singleton.
    split; [tauto|]. intros Hx. split; [done|]. by intros ->.
Qed.

Lemma own_join_then_part_witness :
  Str.contains (py " ") (py "Bot!u@h") = false ∧
  acting_nick (py "Bot!u@h") = Ok (nick bot) ∧
  channels (st (_parse_message (relayed (py "Bot!u@h") (py "PART " ++ py "#general"))
     (st (_parse_message (relayed (py "Bot!u@h") (py "JOIN " ++ py "#general")) bot))))
  = channels bot ∖ {[py "#general"]}.
Proof.
  split; [reflexivity|]. split; [reflexivity|].
  refine (proj1 (proj2 (proj2
    (own_join_then_part bot (py "Bot!u@h") (py "#general") eq_refl eq_refl _ eq_refl)))).
  discriminate.
Defined.

(** ** Messages out and back *)

Lemma parse_relayed_privmsg source target body n c :
  Str.contains (py " ") source = false →
  Str.contains (py " ") target = false →
  acting_nick source = Ok n →
  _parse_message (relayed source (py "PRIVMSG " ++ target ++ py " :" ++ body)) c
  = _trigger (py "message")
      [AMsg (Message.Make target n (soul_metadata body).2 (soul_metadata body).1 None)] c.
Proof.
  intros Hs Ht Hn.
  change (py "PRIVMSG " ++ ?l) with (py "PRIVMSG" ++ py " " ++ l).
  rewrite (parse_relayed source (py "PRIVMSG") _ n) by done.
  rewrite on_command_privmsg. by rewrite (partition_target _ _ Ht).
Qed.


Lemma say_plain target message c :
  say true target message false c =
  MkRun (Ok tt) c [CreateTask (py "PRIVMSG " ++ target ++ py " :" ++ message)].
Proof. reflexivity. Qed.






Lemma lstrip_offer service price provider sid :
  Str.lstrip (offer_text service price provider sid ++ py " ")
  = offer_text service price provider sid ++ py " ".
Proof. reflexivity. Qed.

(** X14. Without a soul [offer_service] sends nothing: it logs a warning
    and returns.  With a soul it sends, signed, the text
    [SERVICE OFFER: <service> | Price: <price> | Provider: <nick> | Soul: <id>];
    relayed and parsed, the line gives a message that carries the
    provider's soul id, and the text followed by the annotation with the
    first 16 digits of the signature. *)
Theorem offer_service_round_trip (c peer : AgentClient)
    (source channel service price : str) :
  match soul c with
  | None =>
      offer_service channel service price c =
      MkRun (Ok tt) c
        [Log WARNING (py "Cannot offer service without soul authentication")]
  | Some s =>
      let text := offer_text service price (nick c) (Soul.soul_id s) in
      ∀ signature,
        Soul.sign s text = Ok signature →
        Str.contains (py " ") source = false →
        Str.contains (py " ") channel = false →
        Soul.soul_id s ≠ [] →
        Str.contains (py "]") (Soul.soul_id s) = false →
        Re.search (py " " ++ text ++ py " [Sig:" ++ take 16 signature ++ py "...]")
          = None →
        ∃ line n,
          offer_service channel service price c = MkRun (Ok tt) c [CreateTask line] ∧
          acting_nick source = Ok n ∧
          length (take 16 signature) = 16%nat ∧
          messages (eff (_parse_message (relayed source line) peer))
          = [Message.Make channel n
               (text ++ py " [Sig:" ++ take 16 signature ++ py "...]")
               (Some (Soul.soul_id s)) None]
  end.
Proof.
  destruct (soul c) as [s|] eqn:Hsoul.
  2:{ unfold offer_service. rewrite run_bind. cbn [get out st eff]. by rewrite Hsoul. }
  intros text signature Hsig Hs Ht Hne Hid Hrest. subst text.
  destruct (acting_nick_ok source) as [n Hn]. eexists _, n. split.
  { unfold offer_service. rewrite run_bind. cbn [get out st eff app]. rewrite Hsoul.
    rewrite (say_signed_body channel _ s signature c Hsoul Hsig). reflexivity. }
  split; [done|]. split.
  { rewrite length_take. destruct (sign_is_hex64_aux _ _ _ Hsig) as [Hl _]. lia. }
  rewrite (parse_relayed_privmsg source channel _ n) by done.
  rewrite (soul_metadata_signed _ _ (take 16 signature)) by done.
  cbn [fst snd]. rewrite messages_trigger. cbn [mbind list_bind app].
  rewrite lstrip_offer. by rewrite <- !app_assoc.
Qed.

Lemma offer_service_round_trip_witness :
  Soul.sign seed_soul agent_offer = Ok agent_offer_signature ∧
  ∃ line n,
    offer_service (py "#hire") (py "Code Review") (py "5 CLAW tokens") agent
      = MkRun (Ok tt) agent [CreateTask line] ∧
    acting_nick (py "Bot!u@h") = Ok n ∧
    length (take 16 agent_offer_signature) = 16%nat ∧
    messages (eff (_parse_message (relayed (py "Bot!u@h") line) bot))
    = [Message.Make (py "#hire") n
         (agent_offer ++ py " [Sig:" ++ take 16 agent_offer_signature ++ py "...]")
         (Some (Soul.soul_id seed_soul)) None].
Proof.
  assert (Soul.sign seed_soul agent_offer = Ok agent_offer_signature) as Hsig
    by (by vm_compute).
  assert (Re.search (py " " ++ agent_offer ++ py " [Sig:"
                     ++ take 16 agent_offer_signature ++ py "...]") = None) as Hrest
    by (by vm_compute).
  assert (Soul.soul_id seed_soul ≠ []) as Hne by discriminate.
  split; [exact Hsig|].
  exact (offer_service_round_trip agent bot (py "Bot!u@h") (py "#hire")
           (py "Code Review") (py "5 CLAW tokens") agent_offer_signature
           Hsig eq_refl eq_refl Hne eq_refl Hrest).
Defined.

(** ** [connect] and the reconnect policy *)

Lemma bind_raise {A B} (m : M A) (f : A -> M B) c e c' t :
  m c = MkRun (Raise e) c' t → (m ≫= f) c = MkRun (Raise e) c' t.
Proof. intros H. by rewrite run_bind, H. Qed.

Lemma after_nil {A} (r : Run A) : after [] r = r.
Proof. by destruct r. Qed.


Lemma connect_except_run e c :
  connect_except e c =
  let before := [Log ERROR (py "Connection error: " ++ msg e);
                 Dispatch (py "disconnect") [AExn e]]
                ++ handled (py "disconnect") [AExn e] (handlers_for (py "disconnect") c) in
  match escaping [AExn e] (handlers_for (py "disconnect") c) with
  | Raise e' => MkRun (Raise e') (set_connected false c) before
  | Ok _ =>
      if auto_reconnect c then
        MkRun (Ok true) (set_clock (clock c + 5) (set_connected false c))
          (before ++ [Log INFO (py "Reconnecting in 5 seconds..."); Sleep 5])
      else MkRun (Ok false) (set_connected false c) before
  end.
Proof.
  unfold connect_except.
  rewrite (bind_ok _ _ c tt c [Log ERROR (py "Connection error: " ++ msg e)]) by done.
  rewrite (bind_ok _ _ c tt (set_connected false c) []) by done.
  rewrite run_bind, trigger_run. cbn [out st eff].
  change (handlers_for (py "disconnect") (set_connected false c))
    with (handlers_for (py "disconnect") c).
  destruct (escaping [AExn e] (handlers_for (py "disconnect") c)) as [[]|e'].
  2:{ unfold after. by cbn [out st eff app]. }
  rewrite (bind_ok _ _ _ (set_connected false c) (set_connected false c) []) by done.
  change (auto_reconnect (set_connected false c)) with (auto_reconnect c).
  destruct (auto_reconnect c).
  - rewrite (bind_ok _ _ _ tt (set_connected false c)
               [Log INFO (py "Reconnecting in 5 seconds...")]) by done.
    rewrite (bind_ok _ _ _ tt (set_connected false c) [Sleep 5]) by done.
    rewrite (bind_ok _ _ _ tt (set_clock (clock c + 5) (set_connected false c)) [])
      by done.
    unfold after. by cbn [out st eff mret M_ret app].
  - unfold after. cbn [out st eff mret M_ret app]. by rewrite ?app_nil_r.
Qed.

Lemma attempts_app t1 t2 : attempts (t1 ++ t2) = (attempts t1 + attempts t2)%nat.
Proof. unfold attempts. by rewrite bind_app, length_app. Qed.

Lemma slept_app t1 t2 : slept (t1 ++ t2) = slept t1 ++ slept t2.
Proof. apply bind_app. Qed.



Lemma steady_rest_of_connect :
  Emits steady
    (c ← get;
     _send (py "NICK " ++ nick c) ;;
     _send (py "USER " ++ nick c ++ py " 0 * :" ++ nick c ++ py " Agent") ;;
     match soul c with
     | Some s => _authenticate_soul s
     | None => mret tt
     end ;;
     modify (set_connected true) ;;
     _trigger (py "connect") [] ;;
     _handle_messages).
Proof.
  repeat first
    [ intros c; apply steady_send
    | intros c; apply steady_trigger
    | intros c; apply steady_handle_messages
    | apply (emits_authenticate steady); [done|intros m c; apply steady_send]
    | emits_step ].
Qed.

Lemma open_connection_run c :
  open_connection c =
  match net c with
  | [] => MkRun (Raise (Exn OSError (py "Connection refused"))) c [Open]
  | Refused e :: later => MkRun (Raise e) (set_net later c) [Open]
  | Accepted k :: later =>
      MkRun (Ok tt)
        (set_writer (Some (writes k)) (set_reader (Some (incoming k)) (set_net later c)))
        [Open]
  end.
Proof.
  unfold open_connection. rewrite (bind_ok _ _ c tt c [Open]) by done.
  rewrite (bind_ok _ _ c c c []) by done.
  destruct (net c) as [|[e|k] later]; [done| |].
  - by rewrite (bind_ok _ _ c tt (set_net later c) []) by done.
  - rewrite (bind_ok _ _ c tt (set_net later c) []) by done.
    by rewrite (bind_ok _ _ _ tt (set_reader (Some (incoming k)) (set_net later c)) [])
      by done.
Qed.

Lemma open_connection_eff c : eff (open_connection c) = [Open].
Proof. rewrite open_connection_run. by destruct (net c) as [|[e|k] later]. Qed.

Lemma connect_try_one_attempt c :
  attempts (eff (connect_try c)) = 1%nat ∧ slept (eff (connect_try c)) = [].
Proof.
  unfold connect_try. rewrite run_bind.
  destruct (out (open_connection c)); cbn [eff]; rewrite open_connection_eff; [|done].
  rewrite attempts_app, slept_app.
  destruct (steady_attempts _ (steady_rest_of_connect (st (open_connection c))))
    as [-> ->].
  done.
Qed.

Lemma keeps_open_connection {X} (f : AgentClient -> X) :
  (∀ n c, f (set_net n c) = f c) →
  (∀ r c, f (set_reader r c) = f c) →
  (∀ w c, f (set_writer w c) = f c) →
  Keeps f open_connection.
Proof.
  intros Hn Hr Hw. unfold open_connection.
  repeat first [keeps_step | apply keeps_modify; intros; first [apply Hn|apply Hr|apply Hw]].
Qed.

Lemma keeps_connect_try {X} (f : AgentClient -> X) :
  (∀ n c, f (set_net n c) = f c) →
  (∀ r c, f (set_reader r c) = f c) →
  (∀ w c, f (set_writer w c) = f c) →
  (∀ s c, f (set_channels s c) = f c) →
  (∀ b c, f (set_connected b c) = f c) →
  Keeps f connect_try.
Proof.
  intros Hn Hr Hw Hc Hb. unfold connect_try.
  repeat first
    [ apply keeps_open_connection; assumption
    | apply keeps_send; assumption
    | apply keeps_authenticate; assumption
    | apply keeps_handle_messages; assumption
    | keeps_step
    | apply keeps_modify; intros; apply Hb ].
Qed.

Lemma ends_bind {A B} Q (m : M A) (k : A -> M B) :
  (∀ a, Ends Q (k a)) → Ends Q (m ≫= k).
Proof.
  intros Hk c b. rewrite run_bind. destruct (out (m c)) as [a|e]; [|done].
  cbn [out st]. apply Hk.
Qed.

Lemma handle_messages_disconnected : Ends (fun c => connected c = false) _handle_messages.
Proof.
  unfold _handle_messages.
  do 2 (apply ends_bind; intros ?). intros c ? _.
  rewrite run_bind. cbn [modify out st eff]. by rewrite trigger_run.
Qed.

Lemma connect_try_ends_disconnected : Ends (fun c => connected c = false) connect_try.
Proof.
  unfold connect_try.
  do 7 (apply ends_bind; intros ?). apply handle_messages_disconnected.
Qed.

(** *** When nothing raises past [except Exception] *)

Lemma calm_keeps {A} (m : M A) : Keeps _handlers m → Keeps reader m → Calm m.
Proof.
  intros Hh Hr c [Hp Hq]. split.
  - by apply (polite_handlers_same c).
  - unfold quiet_stream. by rewrite Hr.
Qed.

Lemma calm_bind {A B} (m : M A) (k : A -> M B) :
  Calm m → (∀ a, Calm (k a)) → Calm (m ≫= k).
Proof.
  intros Hm Hk c Hc. rewrite run_bind.
  destruct (out (m c)) as [a|e]; cbn [st]; [apply Hk|]; by apply Hm.
Qed.

Lemma mild_bind {A B} (m : M A) (k : A -> M B) :
  Mild m → Calm m → (∀ a, Mild (k a)) → Mild (m ≫= k).
Proof.
  intros Hm Hc Hk c e Hcalm. rewrite run_bind.
  destruct (out (m c)) as [a|e'] eqn:E; cbn [out].
  - apply Hk. by apply Hc.
  - intros [= <-]. by apply (Hm c).
Qed.

Lemma mild_send message : Mild (_send message).
Proof. intros c e _. apply send_raise. Qed.

Lemma calm_send message : Calm (_send message).
Proof. apply calm_keeps; by apply keeps_send. Qed.

Lemma mild_sign s text : Mild (lift (Soul.sign s text)).
Proof.
  intros c e _. unfold lift. cbn [out]. unfold Soul.sign.
  destruct (Codec.encode (Soul.seed s)) eqn:E1;
    [|intros [= <-]; by apply encode_raise in E1].
  destruct (Codec.encode text) eqn:E2; [done|].
  intros [= <-]. by apply encode_raise in E2.
Qed.

Lemma mild_authenticate s : Mild (_authenticate_soul s).
Proof.
  unfold _authenticate_soul.
  apply mild_bind; [done|by apply calm_keeps|intros c].
  apply mild_bind; [apply mild_sign|by apply calm_keeps|intros signature].
  apply mild_bind; [apply mild_send|apply calm_send|intros ?; apply mild_send].
Qed.

Lemma calm_authenticate s : Calm (_authenticate_soul s).
Proof. apply calm_keeps; by apply keeps_authenticate. Qed.

Lemma mild_trigger event args : Mild (_trigger event args).
Proof. intros c e [Hp _]. rewrite trigger_out. by rewrite polite_escaping. Qed.

Lemma handle_messages_quiet c : calm c → out (_handle_messages c) = Ok tt.
Proof.
  intros [Hp Hq]. unfold _handle_messages. rewrite run_bind. cbn [get out st eff].
  set (L := match reader c with
            | Some pending => read_loop pending
            | None => mret tt
            end).
  assert (out (L c) = Ok tt) as HL.
  { subst L. unfold quiet_stream in Hq.
    destruct (reader c); [by apply read_loop_quiet|done]. }
  assert (_handlers (st (L c)) = _handlers c) as Hh.
  { subst L. destruct (reader c); [|done]. by apply (keeps_read_loop _handlers). }
  rewrite run_bind, HL. cbn [out st eff]. rewrite run_bind. cbn [modify out st eff].
  rewrite trigger_out. apply polite_escaping.
  apply (polite_handlers_same c); [|done]. by cbn [_handlers set_connected].
Qed.

Lemma mild_rest_of_connect :
  Mild
    (c ← get;
     _send (py "NICK " ++ nick c) ;;
     _send (py "USER " ++ nick c ++ py " 0 * :" ++ nick c ++ py " Agent") ;;
     match soul c with
     | Some s => _authenticate_soul s
     | None => mret tt
     end ;;
     modify (set_connected true) ;;
     _trigger (py "connect") [] ;;
     _handle_messages).
Proof.
  apply mild_bind; [done|by apply calm_keeps|intros c0].
  apply mild_bind; [apply mild_send|apply calm_send|intros ?].
  apply mild_bind; [apply mild_send|apply calm_send|intros ?].
  apply mild_bind.
  { destruct (soul c0); [apply mild_authenticate|done]. }
  { destruct (soul c0); [apply calm_authenticate|by apply calm_keeps]. }
  intros ?. apply mild_bind; [done|by apply calm_keeps|intros ?].
  apply mild_bind;
    [apply mild_trigger|apply calm_keeps; by apply keeps_trigger|intros ?].
  intros c e Hc. by rewrite handle_messages_quiet.
Qed.

Lemma connect_try_mild c e :
  polite_handlers c → quiet_net c = true →
  out (connect_try c) = Raise e → is_exception (cls e) = true.
Proof.
  intros Hp Hq. unfold connect_try. rewrite run_bind, open_connection_run.
  unfold quiet_net in Hq.
  destruct (net c) as [|[e0|k] later]; cbn [out st eff].
  - by intros [= <-].
  - cbn [forallb quiet_attempt] in Hq. apply andb_true_iff in Hq as [Hq _].
    by intros [= <-].
  - cbn [forallb quiet_attempt] in Hq. apply andb_true_iff in Hq as [Hq _].
    apply mild_rest_of_connect.
    split; [by apply (polite_handlers_same c)|exact Hq].
Qed.

(** One attempt and no more, once auto-reconnect is disabled. *)
Lemma connect_single_attempt (fuel : nat) (c : AgentClient) :
  auto_reconnect c = false →
  ∃ r, connect (S fuel) c = Some r ∧
       attempts (eff r) = 1%nat ∧
       slept (eff r) = [] ∧
       auto_reconnect (st r) = false ∧
       (polite_handlers c → quiet_net c = true →
        out r = Ok tt ∧ connected (st r) = false).
Proof.
  intros Hauto. cbn [connect].
  destruct (connect_try_one_attempt c) as [Ha Hs].
  assert (auto_reconnect (st (connect_try c)) = false) as Hkeep
    by (by rewrite (keeps_connect_try auto_reconnect)).
  assert (_handlers (st (connect_try c)) = _handlers c) as Hh
    by (by apply (keeps_connect_try _handlers)).
  destruct (out (connect_try c)) as [[]|e] eqn:Hout.
  { eexists. split; [reflexivity|]. split_and!; try done.
    intros _ _. split; [done|]. by apply (connect_try_ends_disconnected c tt). }
  destruct (is_exception (cls e)) eqn:E.
  2:{ eexists. split; [reflexivity|]. split_and!; try done.
      intros Hp Hq. apply (connect_try_mild c e Hp Hq) in Hout. congruence. }
  rewrite connect_except_run, Hkeep. cbv zeta.
  destruct (steady_attempts _ (steady_handled (py "disconnect") [AExn e]
              (handlers_for (py "disconnect") (st (connect_try c))))) as [Ha' Hs'].
  destruct (escaping [AExn e] (handlers_for (py "disconnect") (st (connect_try c))))
    as [[]|e'] eqn:He; cbn [out st eff].
  - eexists. split; [reflexivity|]. cbn [out st eff].
    rewrite !attempts_app, !slept_app, Ha, Hs, Ha', Hs'. by split_and!.
  - eexists. split; [reflexivity|]. cbn [out st eff].
    rewrite !attempts_app, !slept_app, Ha, Hs, Ha', Hs'. split_and!; try done.
    intros Hp _. rewrite polite_escaping in He; [done|].
    by apply (polite_handlers_same c).
Qed.



(** X22. Under the event loop [quit] queues the line [QUIT :reason],
    closes the writer when there is one, and changes nothing of the
    client but the auto-reconnect flag, which it clears.  Without a
    running loop, which is how [run_forever] calls it after Ctrl-C, it
    clears the flag and raises [RuntimeError]: no line is queued and
    the writer is not closed.  Either way a [connect] that runs from
    there makes one attempt and does not sleep, even when the attempt
    fails. *)
Theorem quit_stops_reconnecting (reason : str) (fuel : nat) (c : AgentClient) :
  quit true reason c
    = MkRun (Ok tt) (set_auto_reconnect false c)
        (CreateTask (py "QUIT :" ++ reason)
         :: match writer c with Some _ => [Close] | None => [] end) ∧
  quit false reason c
    = MkRun (Raise (Exn RuntimeError (py "no running event loop")))
        (set_auto_reconnect false c) [] ∧
  ∀ loop, ∃ r, connect (S fuel) (st (quit loop reason c)) = Some r ∧
               attempts (eff r) = 1%nat ∧ slept (eff r) = [].
Proof.
  assert (quit true reason c
          = MkRun (Ok tt) (set_auto_reconnect false c)
              (CreateTask (py "QUIT :" ++ reason)
               :: match writer c with Some _ => [Close] | None => [] end)) as Ht.
  { unfold quit.
    rewrite (bind_ok _ _ c tt (set_auto_reconnect false c) []) by done.
    rewrite (bind_ok _ _ _ tt (set_auto_reconnect false c) [_]) by done.
    rewrite (bind_ok _ _ _ (set_auto_reconnect false c)
               (set_auto_reconnect false c) []) by done.
    unfold after, set_auto_reconnect. cbn [writer].
    by destruct (writer c). }
  assert (quit false reason c
          = MkRun (Raise (Exn RuntimeError (py "no running event loop")))
              (set_auto_reconnect false c) []) as Hf.
  { unfold quit.
    rewrite (bind_ok _ _ c tt (set_auto_reconnect false c) []) by done.
    by rewrite (bind_raise _ _ _ (Exn RuntimeError (py "no running event loop"))
                  (set_auto_reconnect false c) []) by done. }
  split; [exact Ht|]. split; [exact Hf|].
  intros loop.
  assert (st (quit loop reason c) = set_auto_reconnect false c) as ->
    by (destruct loop; by rewrite ?Ht, ?Hf).
  destruct (connect_single_attempt fuel (set_auto_reconnect false c) eq_refl)
    as (r & Hr & Ha & Hsl & _).
  by exists r.
Qed.

(** ** What goes out on the wire *)

Lemma drop_crlf x : drop (length (x ++ crlf) - 2) (x ++ crlf) = crlf.
Proof.
  rewrite length_app. change (length crlf) with 2%nat.
  replace (length x + 2 - 2)%nat with (length x) by lia.
  by rewrite drop_app_length.
Qed.

Lemma encode_line_ends message d :
  Codec.encode (message ++ crlf) = Ok d →
  Str.eqb (drop (length d - 2) d) crlf = true.
Proof.
  rewrite encode_app. destruct (Codec.encode message) as [x|]; [|done].
  change (Codec.encode crlf) with (Ok (A:=list N) crlf). cbv beta iota.
  intros [= <-]. rewrite drop_crlf. apply eqb_refl.
Qed.

Lemma crlf_send message : Emits ends_crlf (_send message).
Proof.
  intros c. unfold _send. rewrite (bind_ok _ _ c c c []) by done.
  destruct (writer c) as [credit|]; [|done].
  destruct (Codec.encode (message ++ crlf)) as [d|e] eqn:He.
  - rewrite (bind_ok _ _ c d c []) by done.
    pose proof (encode_line_ends _ _ He) as Hd.
    destruct credit as [[|k]|]; [done| |].
    + rewrite (bind_ok _ _ c tt (set_writer (Some (Some k)) c) []) by done.
      unfold after, emit. cbn [eff app forallb ends_crlf]. by rewrite Hd.
    + unfold after, emit. cbn [eff app forallb ends_crlf]. by rewrite Hd.
  - by rewrite (bind_raise _ _ c e c []) by done.
Qed.

Lemma crlf_connect_try : Emits ends_crlf connect_try.
Proof.
  unfold connect_try, open_connection.
  repeat first
    [ apply crlf_send
    | apply (emits_trigger ends_crlf); done
    | apply (emits_handle_messages ends_crlf); [done|done|done|apply crlf_send]
    | apply (emits_authenticate ends_crlf); apply crlf_send
    | emits_step ].
Qed.

Lemma crlf_connect_except e : Emits ends_crlf (connect_except e).
Proof.
  unfold connect_except.
  repeat first [apply (emits_trigger ends_crlf); done | emits_step].
Qed.

(** X17. Everything the client writes to the transport while [connect]
    runs (the NICK and USER lines, the soul commands, the PONG answers)
    ends with CR LF: this holds of what was done by the end of any
    attempt, whether [connect] returns or goes on for ever; and when
    [connect] returns, what it has done is what was done by then. *)
Theorem every_write_ends_with_crlf (n : nat) (c : AgentClient) :
  forallb ends_crlf (connect_upto n c) = true ∧
  ∀ r, connect n c = Some r → eff r = connect_upto n c.
Proof.
  revert c. induction n as [|n IH]; intros c; [done|].
  cbn [connect connect_upto]. pose proof (crlf_connect_try c) as Ht.
  remember (connect_try c) as r1 eqn:E1. clear E1.
  destruct (out r1) as [[]|e]; [split; [done|by intros r [= <-]]|].
  destruct (is_exception (cls e)); [|split; [done|by intros r [= <-]]].
  pose proof (crlf_connect_except e (st r1)) as He.
  remember (connect_except e (st r1)) as r2 eqn:E2. clear E2.
  destruct (IH (st r2)) as [IH1 IH2].
  destruct (out r2) as [[|]|e'].
  - split; [by rewrite !forallb_app, Ht, He, IH1|].
    intros r. destruct (connect n (st r2)) as [r3|] eqn:Hr; [|done].
    intros [= <-]. cbn [eff]. by rewrite (IH2 r3).
  - split; [by rewrite !forallb_app, Ht, He|]. intros r [= <-]. cbn [eff].
    by rewrite app_nil_r.
  - split; [by rewrite !forallb_app, Ht, He|]. intros r [= <-]. cbn [eff].
    by rewrite app_nil_r.
Qed.

Lemma every_write_ends_with_crlf_witness :
  connect 3 stuck = None ∧
  written (connect_upto 3 stuck) = [py "NICK Bot" ++ crlf] ∧
  attempts (connect_upto 3 stuck) = 3%nat ∧
  forallb ends_crlf (connect_upto 3 stuck) = true.
Proof.
  split; [by vm_compute|]. split; [by vm_compute|]. split; [by vm_compute|].
  exact (proj1 (every_write_ends_with_crlf 3 stuck)).
Defined.

(** ** Authentication *)

Lemma py_cons a s : py (String a s) = N_of_ascii a :: py s.
Proof. reflexivity. Qed.

Lemma digits_ascii d :
  Hmac.is_ascii (py (DecimalString.NilEmpty.string_of_uint d)) = true.
Proof.
  induction d; cbn [DecimalString.NilEmpty.string_of_uint]; [done|..];
    rewrite py_cons; unfold Hmac.is_ascii in *; cbn [forallb]; by rewrite IHd.
Qed.

Lemma str_of_N_ascii n : Hmac.is_ascii (str_of_N n) = true.
Proof.
  unfold str_of_N, DecimalString.NilZero.string_of_uint.
  destruct (N.to_uint n) eqn:E; try (rewrite <- E; apply digits_ascii). done.
Qed.

Lemma send_unlimited message d c :
  writer c = Some None →
  Codec.encode (message ++ crlf) = Ok d →
  _send message c = MkRun (Ok tt) c [Transmit d].
Proof.
  intros Hw He. rewrite (send_can_write message d c); [|by unfold can_write; rewrite Hw|done].
  unfold after_write. by rewrite Hw.
Qed.

(** X18. On a transport that takes the writes, for a soul and a nick
    that can be encoded, [_authenticate_soul] sends two lines, in this
    order: [SOUL <id>] and [PRIVMSG NickServ :IDENTIFY <id> <signature>].
    The signature is the soul's signature of [AUTH:<nick>:<seconds>]:
    64 hexadecimal digits that [verify] accepts for that text. *)
Theorem authenticate_sends_verifiable_identity (c : AgentClient) (s : Soul.t)
    (key nickb idb : list N) :
  writer c = Some None →
  Codec.encode (Soul.seed s) = Ok key →
  Codec.encode (nick c) = Ok nickb →
  Codec.encode (Soul.soul_id s) = Ok idb →
  ∃ signature,
    Soul.verify s (py "AUTH:" ++ nick c ++ py ":" ++ str_of_N (clock c)) signature
      = Ok true ∧
    is_hex64 signature ∧
    _authenticate_soul s c =
    MkRun (Ok tt) c
      [Transmit (py "SOUL " ++ idb ++ crlf);
       Transmit (py "PRIVMSG NickServ :IDENTIFY " ++ idb ++ py " " ++ signature ++ crlf)].
Proof.
  intros Hw Hkey Hnick Hid.
  assert (∃ bs, Codec.encode (py "AUTH:" ++ nick c ++ py ":" ++ str_of_N (clock c))
                = Ok bs) as [bs Hbs].
  { rewrite !encode_app, Hnick, (encode_ascii _ (str_of_N_ascii (clock c))).
    change (Codec.encode (py "AUTH:")) with (Ok (A:=list N) (py "AUTH:")).
    change (Codec.encode (py ":")) with (Ok (A:=list N) (py ":")).
    cbv beta iota. eauto. }
  pose proof (sign_total s _ key bs Hkey Hbs) as Hsig.
  exists (Hmac.hexdigest key bs).
  split; [by apply verify_own_signature|]. split; [apply hmac_hex64|].
  unfold _authenticate_soul.
  rewrite (bind_ok _ _ c c c []) by done.
  rewrite (bind_ok _ _ c (Hmac.hexdigest key bs) c []) by (unfold lift; by rewrite Hsig).
  rewrite (bind_ok _ _ c tt c [Transmit (py "SOUL " ++ idb ++ crlf)]).
  2:{ apply send_unlimited; [done|]. rewrite !encode_app, Hid.
      change (Codec.encode (py "SOUL ")) with (Ok (A:=list N) (py "SOUL ")).
      change (Codec.encode crlf) with (Ok (A:=list N) crlf).
      cbv beta iota. by rewrite <- app_assoc. }
  rewrite (send_unlimited _
    (py "PRIVMSG NickServ :IDENTIFY " ++ idb ++ py " " ++ Hmac.hexdigest key bs ++ crlf)
    c Hw).
  - reflexivity.
  - rewrite !encode_app, Hid.
    rewrite (encode_ascii (Hmac.hexdigest key bs))
      by apply hex_is_ascii, hmac_hex64.
    change (Codec.encode (py "PRIVMSG NickServ :IDENTIFY "))
      with (Ok (A:=list N) (py "PRIVMSG NickServ :IDENTIFY ")).
    change (Codec.encode (py " ")) with (Ok (A:=list N) (py " ")).
    change (Codec.encode crlf) with (Ok (A:=list N) crlf).
    cbv beta iota. by rewrite <- !app_assoc.
Qed.

Lemma authenticate_sends_verifiable_identity_witness :
  writer agent = Some None ∧
  ∃ signature,
    Soul.verify seed_soul (py "AUTH:" ++ nick agent ++ py ":" ++ str_of_N (clock agent))
      signature = Ok true ∧
    is_hex64 signature ∧
    _authenticate_soul seed_soul agent =
    MkRun (Ok tt) agent
      [Transmit (py "SOUL " ++ Soul.soul_id seed_soul ++ crlf);
       Transmit (py "PRIVMSG NickServ :IDENTIFY " ++ Soul.soul_id seed_soul
                 ++ py " " ++ signature ++ crlf)].
Proof.
  split; [reflexivity|].
  assert (Codec.encode (Soul.soul_id seed_soul) = Ok (Soul.soul_id seed_soul)) as Hid
    by (by vm_compute).
  exact (authenticate_sends_verifiable_identity agent seed_soul (py "seed") (py "Bot")
           (Soul.soul_id seed_soul) eq_refl eq_refl eq_refl Hid).
Defined.

(** ** The handler registry *)

(** X19. [on] accepts any event name, has no effect besides the
    registry, and returns.  The handler goes to the end of the list of
    its event; the lists of the other events, the membership and the
    connection state stay as they were. *)
Theorem on_registers_for_its_event_only (event other : str) (h : Handler)
    (c : AgentClient) :
  out (on event h c) = Ok tt ∧ eff (on event h c) = [] ∧
  handlers_for event (st (on event h c)) = handlers_for event c ++ [h] ∧
  (other ≠ event →
   handlers_for other (st (on event h c)) = handlers_for other c) ∧
  channels (st (on event h c)) = channels c ∧
  connected (st (on event h c)) = connected c ∧
  auto_reconnect (st (on event h c)) = auto_reconnect c.
Proof.
  split_and!; try done; [apply handlers_for_on|].
  intros Hne. unfold on, handlers_for, modify. cbn [st set_handlers _handlers].
  destruct (_handlers c !! event) as [hs|] eqn:E.
  - by rewrite lookup_alter_ne.
  - rewrite lookup_alter_ne by done. by rewrite lookup_insert_ne.
Qed.

Lemma on_registers_for_its_event_only_witness :
  py "join" ≠ py "message" ∧
  handlers_for (py "join")
    (st (on (py "message") {| h_id := 1; h_run := fun _ => Ok tt |} bot))
  = handlers_for (py "join") bot.
Proof.
  assert (py "join" ≠ py "message") as Hne by discriminate.
  split; [exact Hne|].
  exact (proj1 (proj2 (proj2 (proj2
    (on_registers_for_its_event_only (py "message") (py "join")
       {| h_id := 1; h_run := fun _ => Ok tt |} bot)))) Hne).
Defined.

(** ** [create_client] *)

(** X20. [create_client] gives a client without soul when the seed is
    absent and also when it is the empty text, although [from_seed]
    takes the empty seed.  For a non-empty seed that can be encoded it
    gives a client that holds the soul [from_seed] derives; a seed that
    cannot be encoded makes it raise.  The client starts disconnected,
    in no channel, with auto-reconnect enabled. *)
Theorem create_client_soul (nick_ : str) (soul_seed : option str)
    (net_ : list Attempt) (clock_ : N) :
  match soul_seed with
  | None | Some [] =>
      create_client nick_ soul_seed net_ clock_ = Ok (init nick_ None true net_ clock_) ∧
      ∃ s, SoulAuth.from_seed [] [] [] [] = Ok s
  | Some seed =>
      match SoulAuth.from_seed seed [] [] [] with
      | Ok s =>
          ∃ c, create_client nick_ soul_seed net_ clock_ = Ok c ∧
               soul c = Some s ∧ Soul.seed s = seed ∧ is_hex64 (Soul.soul_id s) ∧
               nick c = nick_ ∧ connected c = false ∧ channels c = ∅ ∧
               auto_reconnect c = true
      | Raise e =>
          create_client nick_ soul_seed net_ clock_ = Raise e ∧
          Codec.encode seed = Raise e
      end
  end.
Proof.
  destruct soul_seed as [[|x seed]|].
  - split; [done|]. eexists. by vm_compute.
  - cbn [create_client]. rewrite from_seed_run.
    destruct (Codec.encode (x :: seed)) as [key|e]; [|done].
    eexists. split; [reflexivity|]. cbn.
    split_and!; try done; apply hexdigest_hex64.
  - split; [done|]. eexists. by vm_compute.
Qed.

(** ** The bot of [examples/bot_runner.py] *)

Lemma bot_commands_exclusive s :
  (Str.startswith (py "!help") s = true →
   Str.startswith (py "!soul") s = false ∧ Str.startswith (py "!services") s = false) ∧
  (Str.startswith (py "!soul") s = true → Str.startswith (py "!services") s = false).
Proof.
  split; intros [r ->]%startswith_inv; [split|]; reflexivity.
Qed.

(** X21. The message handler of the bot answers a message at most once,
    since no content starts with two of its commands; it answers by
    queueing one PRIVMSG to the channel of the message, never raises,
    and leaves the client as it was.  To [!help] it answers with the
    list of commands and to [!services] with the list of services; to
    [!soul] it answers that the sender is soul-verified, with the first
    16 characters of the soul id, when the message carries a soul id,
    and that there is no soul verification otherwise.  Any other
    content gets no answer. *)
Theorem bot_answers_at_most_once (msg : Message.t) (c : AgentClient) :
  let content := Message.content msg in
  let answer text :=
    MkRun (Ok tt) c
      [CreateTask (py "PRIVMSG " ++ Message.channel msg ++ py " :" ++ text)] in
  (Str.startswith (py "!help") content = true →
   BotRunner.on_message msg c
   = answer (py "Available commands: !help, !soul, !services, !verify <soul_id>")) ∧
  (Str.startswith (py "!soul") content = true →
   BotRunner.on_message msg c = MkRun (Ok tt) c [CreateTask (soul_reply msg)]) ∧
  (Str.startswith (py "!services") content = true →
   BotRunner.on_message msg c
   = answer (py "Available services: Code Review, Security Audit, Content Creation. "
             ++ py "Use SERVICE OFFER or SERVICE REQUEST in #hire")) ∧
  (Str.startswith (py "!help") content = false →
   Str.startswith (py "!soul") content = false →
   Str.startswith (py "!services") content = false →
   BotRunner.on_message msg c = MkRun (Ok tt) c []) ∧
  out (BotRunner.on_message msg c) = Ok tt ∧
  st (BotRunner.on_message msg c) = c ∧
  (length (eff (BotRunner.on_message msg c)) ≤ 1)%nat.
Proof.
  intros content answer. subst content answer.
  unfold BotRunner.on_message, soul_reply.
  destruct (bot_commands_exclusive (Message.content msg)) as [Hh Hs].
  destruct (Str.startswith (py "!help") (Message.content msg)) eqn:H1.
  { destruct (Hh eq_refl) as [-> ->].
    rewrite (bind_ok _ _ c tt c [_]) by apply say_plain.
    rewrite (bind_ok _ _ c tt c []) by done.
    unfold after. cbn [out st eff mret M_ret app length].
    split_and!; [done|done|done|done|done|done|lia]. }
  rewrite (bind_ok _ _ c tt c []) by done.
  destruct (Str.startswith (py "!soul") (Message.content msg)) eqn:H2.
  { rewrite (Hs eq_refl).
    destruct (Message.soul_id msg) as [[|x sid]|];
      rewrite (bind_ok _ _ c tt c [_]) by apply say_plain;
      unfold after; cbn [out st eff mret M_ret app length];
      (split_and!; [done| |done|done|done|done|lia]);
      intros _; by rewrite <- ?app_assoc. }
  rewrite (bind_ok _ _ c tt c []) by done.
  destruct (Str.startswith (py "!services") (Message.content msg)) eqn:H3.
  { rewrite say_plain. unfold after. cbn [out st eff app length].
    split_and!; [done|done|done|done|done|done|lia]. }
  unfold after. cbn [out st eff mret M_ret app length].
  split_and!; [done|done|done|done|done|done|lia].
Qed.

Lemma bot_answers_at_most_once_witness :
  messages (eff (_parse_message soul_query bot))
    = [Message.Make (py "#general") (py "Alice") (py "!soul")
         (Some (py "deadbeef0123456789abcdef")) None] ∧
  BotRunner.on_message
    (Message.Make (py "#general") (py "Alice") (py "!soul")
       (Some (py "deadbeef0123456789abcdef")) None) bot
  = MkRun (Ok tt) bot
      [CreateTask (py "PRIVMSG #general :Alice is soul-verified: deadbeef01234567...")].
Proof.
  split; [by vm_compute|].
  exact (proj1 (proj2
    (bot_answers_at_most_once
       (Message.Make (py "#general") (py "Alice") (py "!soul")
          (Some (py "deadbeef0123456789abcdef")) None) bot)) eq_refl).
Defined.
